(** * AI Translator Pro: the translation client and the interaction controller

    A shallow embedding of [services/geminiService.ts] (the function
    [translateText]) and of the event handlers of [App.tsx], together with
    the properties of the specification that talk about them.

    JavaScript strings are sequences of UTF-16 code units; a code unit is a
    number below 65536, kept here as an [N]. *)

From Stdlib Require Import NArith Ascii String.
From stdpp Require Import base option list gmap.

Local Open Scope N_scope.

(** ** JavaScript strings *)

Module Js.

Abbreviation jsstring := (list N).

(** An ASCII literal of the source, as code units. *)
Definition lit (s : string) : jsstring :=
  map N_of_ascii (list_ascii_of_string s).

Definition LF : jsstring := [10].

(** ECMAScript [WhiteSpace] and [LineTerminator] code points, the ones
    [String.prototype.trim] strips. *)
Definition isWhiteSpace (c : N) : bool :=
  (c =? 9) || (c =? 10) || (c =? 11) || (c =? 12) || (c =? 13)
  || (c =? 32) || (c =? 160) || (c =? 5760)
  || ((8192 <=? c) && (c <=? 8202))
  || (c =? 8232) || (c =? 8233) || (c =? 8239) || (c =? 8287)
  || (c =? 12288) || (c =? 65279).

Fixpoint trimStart (s : jsstring) : jsstring :=
  match s with
  | [] => []
  | c :: r => if isWhiteSpace c then trimStart r else s
  end.

Definition trimEnd (s : jsstring) : jsstring := rev (trimStart (rev s)).

(** [s.trim()] *)
Definition trim (s : jsstring) : jsstring := trimEnd (trimStart s).

(** Truthiness of a string: every string but the empty one. *)
Definition truthy (s : jsstring) : bool :=
  match s with [] => false | _ :: _ => true end.

(** [a.join(sep)] on an array of strings. *)
Fixpoint join (sep : jsstring) (a : list jsstring) : jsstring :=
  match a with
  | [] => []
  | [x] => x
  | x :: r => x ++ sep ++ join sep r
  end.

(** What a [throw] can carry: an [Error] (or a subclass of it, told apart by
    [name]) with its message, or any other value. *)
Inductive Thrown : Type :=
  | ErrorObj (name message : jsstring)
  | OtherValue (repr : jsstring).

(** [e instanceof Error] *)
Definition instanceofError (e : Thrown) : bool :=
  match e with ErrorObj _ _ => true | OtherValue _ => false end.

(** [new Error(msg)] *)
Definition newError (msg : jsstring) : Thrown := ErrorObj (lit "Error") msg.

(** How an evaluation or a promise ends. *)
Inductive Completion (A : Type) : Type :=
  | Normal (v : A)
  | Throw (e : Thrown).
Arguments Normal {A} v.
Arguments Throw {A} e.

End Js.
Import Js.

(** ** types.ts

    The module itself is not part of the sources at hand; its two types are
    read off their uses in [App.tsx]: the initial values ['arabic'],
    ['english'], ['text'], the keys of [languageNames] and the argument of
    [setInputMode]. *)

Module Types.

Inductive Language : Type := arabic | english.

Module InputMode.
Inductive t : Type := text | file.
End InputMode.

(** A [Language] is the string of its name; this is what a template literal
    interpolates. *)
Definition Language_str (l : Language) : jsstring :=
  match l with
  | arabic => lit "arabic"
  | english => lit "english"
  end.

End Types.

(** ** services/geminiService.ts *)

Module GeminiService.
Import Types.

(** The argument of [ai.models.generateContent]. *)
Record GenRequest : Type := {
  model : jsstring;
  contents : jsstring;
  thinkingBudget : N
}.

(** The response: its [text] is [undefined] when the service sent none. *)
Record GenResponse : Type := { text : option jsstring }.

(** The client object [ai]: the request goes out and the promise settles. *)
Record GoogleGenAI : Type := {
  generateContent : GenRequest -> Completion GenResponse
}.

(** What [translateText] does to the outside world. *)
Inductive Effect : Type :=
  | NetworkCall (req : GenRequest)
  | ConsoleError (label : jsstring) (cause : Thrown).

(** A computation ends normally or by a throw, and leaves a trace of
    effects. *)
Definition M (A : Type) : Type := (Completion A * list Effect)%type.

Definition ret {A} (v : A) : M A := (Normal v, []).
Definition throw {A} (e : Thrown) : M A := (Throw e, []).
Definition bind {A B} (m : M A) (k : A -> M B) : M B :=
  match m with
  | (Normal v, t) => let '(r, t') := k v in (r, t ++ t')
  | (Throw e, t) => (Throw e, t)
  end.
Definition try_catch {A} (body : M A) (handler : Thrown -> M A) : M A :=
  match body with
  | (Normal v, t) => (Normal v, t)
  | (Throw e, t) => let '(r, t') := handler e in (r, t ++ t')
  end.

Notation "'let*' x ':=' m 'in' k" := (bind m (fun x => k))
  (at level 10, x name, m at level 100, k at level 200).
Notation "m ';;' k" := (bind m (fun _ => k))
  (at level 100, k at level 200, right associativity).

(** [await ai.models.generateContent(req)] *)
Definition await_generateContent (ai : GoogleGenAI) (req : GenRequest)
  : M GenResponse :=
  (generateContent ai req, [NetworkCall req]).

Definition console_error (label : jsstring) (cause : Thrown) : M unit :=
  (Normal tt, [ConsoleError label cause]).

(** [response.text.trim()]: calling a method on [undefined] is a
    [TypeError]. *)
Definition text_trim (response : GenResponse) : M jsstring :=
  match text response with
  | Some t => ret (trim t)
  | None =>
      throw (ErrorObj (lit "TypeError")
               (lit "Cannot read properties of undefined (reading 'trim')"))
  end.

(** The template literal of [translateText], line by line. *)
Definition prompt_of (text : jsstring) (sourceLang targetLang : Language)
  : jsstring :=
  LF
  ++ lit "    You are an expert translator. Translate the following text from "
  ++ Language_str sourceLang ++ lit " to " ++ Language_str targetLang
  ++ lit "." ++ LF
  ++ lit "    Do not add any commentary, preamble, or explanation. Only return the translated text." ++ LF
  ++ lit "    Preserve the original formatting (like line breaks) as much as possible." ++ LF
  ++ LF
  ++ lit "    Text to translate:" ++ LF
  ++ lit "    ---" ++ LF
  ++ lit "    " ++ text ++ LF
  ++ lit "    ---" ++ LF
  ++ lit "  ".

Definition translation_failed_message : jsstring :=
  lit "Failed to translate text. Please check the API key and try again.".

Definition translateText (ai : GoogleGenAI) (text : jsstring)
    (sourceLang targetLang : Language) : M jsstring :=
  if negb (truthy (trim text)) then ret []
  else
    let prompt := prompt_of text sourceLang targetLang in
    try_catch
      (let* response :=
         await_generateContent ai
           {| model := lit "gemini-2.5-flash";
              contents := prompt;
              thinkingBudget := 0 |} in
       text_trim response)
      (fun error =>
         console_error (lit "Gemini API Error:") error;;
         throw (newError translation_failed_message)).

(** The network calls in a trace. *)
Definition network_calls (t : list Effect) : list GenRequest :=
  omap (fun e => match e with NetworkCall r => Some r | _ => None end) t.

End GeminiService.

(** ** The browser objects [App.tsx] talks to *)

Module File.

(** The fields of a DOM [File] the upload handler reads. *)
Record t : Type := { name : jsstring; size : N; type : jsstring }.

End File.

(** [window.pdfjsLib], as far as the upload handler uses it. *)
Module PdfJs.

Record TextItem : Type := { str : jsstring }.

Record TextContent : Type := { items : list TextItem }.

Record Page : Type := { getTextContent : Completion TextContent }.

(** Pages are asked for by number, from 1. *)
Record Document : Type := {
  numPages : nat;
  getPage : nat -> Completion Page
}.

Record Lib : Type := {
  getDocument : list N -> Completion Document
}.

End PdfJs.

(** ** App.tsx *)

Module App.
Import Types GeminiService.

(** The nine [useState] cells of the component. *)
Record UIState : Type := mkUI {
  sourceLang : Language;
  targetLang : Language;
  inputMode : InputMode.t;
  inputText : jsstring;
  translatedText : jsstring;
  isLoading : bool;
  error : option jsstring;
  fileName : option jsstring;
  copySuccess : bool
}.

Definition initial : UIState :=
  mkUI arabic english InputMode.text [] [] false None None false.

Definition setSourceLang (v : Language) (s : UIState) : UIState :=
  mkUI v (targetLang s) (inputMode s) (inputText s) (translatedText s)
    (isLoading s) (error s) (fileName s) (copySuccess s).
Definition setTargetLang (v : Language) (s : UIState) : UIState :=
  mkUI (sourceLang s) v (inputMode s) (inputText s) (translatedText s)
    (isLoading s) (error s) (fileName s) (copySuccess s).
Definition setInputMode (v : InputMode.t) (s : UIState) : UIState :=
  mkUI (sourceLang s) (targetLang s) v (inputText s) (translatedText s)
    (isLoading s) (error s) (fileName s) (copySuccess s).
Definition setInputText (v : jsstring) (s : UIState) : UIState :=
  mkUI (sourceLang s) (targetLang s) (inputMode s) v (translatedText s)
    (isLoading s) (error s) (fileName s) (copySuccess s).
Definition setTranslatedText (v : jsstring) (s : UIState) : UIState :=
  mkUI (sourceLang s) (targetLang s) (inputMode s) (inputText s) v
    (isLoading s) (error s) (fileName s) (copySuccess s).
Definition setIsLoading (v : bool) (s : UIState) : UIState :=
  mkUI (sourceLang s) (targetLang s) (inputMode s) (inputText s)
    (translatedText s) v (error s) (fileName s) (copySuccess s).
Definition setError (v : option jsstring) (s : UIState) : UIState :=
  mkUI (sourceLang s) (targetLang s) (inputMode s) (inputText s)
    (translatedText s) (isLoading s) v (fileName s) (copySuccess s).
Definition setFileName (v : option jsstring) (s : UIState) : UIState :=
  mkUI (sourceLang s) (targetLang s) (inputMode s) (inputText s)
    (translatedText s) (isLoading s) (error s) v (copySuccess s).
Definition setCopySuccess (v : bool) (s : UIState) : UIState :=
  mkUI (sourceLang s) (targetLang s) (inputMode s) (inputText s)
    (translatedText s) (isLoading s) (error s) (fileName s) v.

(** A handler is a run of setter calls: [s |> f |> g] is [f] then [g]. *)
Notation "s |> f" := (f s) (at level 45, left associativity, only parsing).

(** What a handler starts besides writing state: the asynchronous
    operations whose callbacks run later. *)
Inductive Cmd : Type :=
  | CallTranslateText (text : jsstring) (sourceLang targetLang : Language)
  | ClipboardWriteText (text : jsstring)
  | SetTimeout (delay : N)
  | ReadAsArrayBuffer (f : File.t).

(** *** handleTranslate *)

(** Up to the [await]. The handler reads [inputText], [sourceLang] and
    [targetLang] of the render it was created in. *)
Definition handleTranslate (s : UIState) : UIState * list Cmd :=
  if negb (truthy (trim (inputText s))) then
    (s |> setTranslatedText [], [])
  else
    (s |> setIsLoading true |> setError None |> setTranslatedText [],
     [CallTranslateText (inputText s) (sourceLang s) (targetLang s)]).

(** After the [await]: [try] continues or [catch] runs, then [finally].
    The setters write into the state of that later moment. *)
Definition handleTranslate_settled (r : Completion jsstring) (s : UIState)
  : UIState :=
  match r with
  | Normal result => s |> setTranslatedText result |> setIsLoading false
  | Throw e =>
      match e with
      | ErrorObj _ message => s |> setError (Some message)
      | OtherValue _ => s |> setError (Some (lit "An unknown error occurred."))
      end |> setIsLoading false
  end.

(** *** handleSwapLanguages *)

Definition handleSwapLanguages (s : UIState) : UIState :=
  s |> setSourceLang (targetLang s)
    |> setTargetLang (sourceLang s)
    |> setInputText (translatedText s)
    |> setTranslatedText (inputText s).

(** *** handleCopy *)

Definition copy_feedback_delay : N := 2000.

Definition handleCopy (s : UIState) : UIState * list Cmd :=
  if truthy (translatedText s) then (s, [ClipboardWriteText (translatedText s)])
  else (s, []).

(** The [then] callback of the clipboard promise; there is no callback for
    its rejection. *)
Definition handleCopy_written (s : UIState) : UIState * list Cmd :=
  (s |> setCopySuccess true, [SetTimeout copy_feedback_delay]).

(** The only timer callback of the component. *)
Definition handleCopy_timeout (s : UIState) : UIState :=
  s |> setCopySuccess false.

(** *** handleFileChange *)

Definition max_file_size : N := 100 * 1024 * 1024.

Definition size_error : jsstring := lit "File size exceeds 100MB limit.".
Definition type_error : jsstring := lit "Only PDF files are supported.".
Definition read_error : jsstring :=
  lit "Failed to read file or PDF library is not loaded.".
Definition extract_error : jsstring :=
  lit "Failed to extract text from PDF. The file might be corrupted, password-protected, or contain only images.".
Definition reader_error : jsstring :=
  lit "An error occurred while reading the file.".

(** The synchronous part: [file] is [e.target.files?.[0]]. *)
Definition handleFileChange (file : option File.t) (s : UIState)
  : UIState * list Cmd :=
  match file with
  | None => (s, [])
  | Some file =>
      let s := s |> setError None |> setFileName None
                 |> setInputText [] |> setTranslatedText [] in
      if max_file_size <? File.size file then
        (s |> setError (Some size_error), [])
      else if negb (bool_decide (File.type file = lit "application/pdf")) then
        (s |> setError (Some type_error), [])
      else
        (s |> setFileName (Some (File.name file)) |> setIsLoading true,
         [ReadAsArrayBuffer file])
  end.

Definition pageText_of (textContent : PdfJs.TextContent) : jsstring :=
  join (lit " ") (map PdfJs.str (PdfJs.items textContent)).

(** The [for] loop of [reader.onload]: [remaining] pages are left, the next
    one is page [i], [fullText] is what has been gathered. A rejected
    promise leaves the loop. *)
Fixpoint extract_loop (pdf : PdfJs.Document) (remaining i : nat)
    (fullText : jsstring) : Completion jsstring :=
  match remaining with
  | O => Normal fullText
  | S remaining' =>
      match PdfJs.getPage pdf i with
      | Throw e => Throw e
      | Normal page =>
          match PdfJs.getTextContent page with
          | Throw e => Throw e
          | Normal textContent =>
              let pageText := pageText_of textContent in
              extract_loop pdf remaining' (S i)
                (fullText ++ (pageText ++ LF ++ LF))
          end
      end
  end.

(** [fullText] when the loop is left, for the bytes read from the file. *)
Definition extract_fullText (lib : PdfJs.Lib) (bytes : list N)
  : Completion jsstring :=
  match PdfJs.getDocument lib bytes with
  | Throw e => Throw e
  | Normal pdf => extract_loop pdf (PdfJs.numPages pdf) 1%nat []
  end.

(** [reader.onload]: [result] is [event.target?.result], [pdfjsLib] is
    [window.pdfjsLib]. All its setter calls come after its last [await]. *)
Definition reader_onload (pdfjsLib : option PdfJs.Lib)
    (result : option (list N)) (s : UIState) : UIState * list Effect :=
  match result, pdfjsLib with
  | Some bytes, Some lib =>
      match extract_fullText lib bytes with
      | Normal fullText =>
          (s |> setInputText (trim fullText) |> setInputMode InputMode.text
             |> setIsLoading false, [])
      | Throw pdfError =>
          (s |> setError (Some extract_error) |> setIsLoading false,
           [ConsoleError (lit "PDF parsing error:") pdfError])
      end
  | _, _ => (s |> setError (Some read_error) |> setIsLoading false, [])
  end.

Definition reader_onerror (s : UIState) : UIState :=
  s |> setError (Some reader_error) |> setIsLoading false.

End App.

(** ** The event loop around the component

    Handlers and callbacks run one at a time. Between them the browser holds
    what is still under way: promises not yet settled, the file reader, and
    timers with the time they are due. Every such task has a number of its
    own, as [setTimeout] gives its timers. *)

Module Browser.
Import Types GeminiService App.

Inductive Task : Type :=
  | TranslatePending (text : jsstring) (sourceLang targetLang : Language)
  | ClipboardPending (text : jsstring)
  | TimerPending (due : N)
  | ReaderPending (f : File.t).

Record World : Type := mkWorld {
  ui : UIState;
  clock : N;
  next_id : N;
  tasks : gmap N Task;
  clipboard : jsstring;
  effects : list Effect
}.

Definition boot : World := mkWorld initial 0 0 ∅ [] [].

Definition with_ui (s : UIState) (w : World) : World :=
  mkWorld s (clock w) (next_id w) (tasks w) (clipboard w) (effects w).
Definition with_clipboard (c : jsstring) (w : World) : World :=
  mkWorld (ui w) (clock w) (next_id w) (tasks w) c (effects w).
Definition log (t : list Effect) (w : World) : World :=
  mkWorld (ui w) (clock w) (next_id w) (tasks w) (clipboard w)
    (effects w ++ t).
Definition advance (d : N) (w : World) : World :=
  mkWorld (ui w) (clock w + d) (next_id w) (tasks w) (clipboard w)
    (effects w).
Definition finish (id : N) (w : World) : World :=
  mkWorld (ui w) (clock w) (next_id w) (delete id (tasks w)) (clipboard w)
    (effects w).

Definition task_of (c : Cmd) (now : N) : Task :=
  match c with
  | CallTranslateText t sl tl => TranslatePending t sl tl
  | ClipboardWriteText t => ClipboardPending t
  | SetTimeout delay => TimerPending (now + delay)
  | ReadAsArrayBuffer f => ReaderPending f
  end.

Definition spawn (w : World) (c : Cmd) : World :=
  mkWorld (ui w) (clock w) (next_id w + 1)
    (<[next_id w := task_of c (clock w)]> (tasks w)) (clipboard w)
    (effects w).

(** Run a handler on the current state and start what it asks for. *)
Definition run_handler (h : UIState -> UIState * list Cmd) (w : World)
  : World :=
  let '(s, cmds) := h (ui w) in
  foldl spawn (with_ui s w) cmds.

Inductive Event : Type :=
  | ClickTranslate
  | ClickSwap
  | ClickCopy
  | ClickTab (m : InputMode.t)
  | EditText (v : jsstring)
  | ChooseFile (f : option File.t)
  | TranslateSettles (id : N) (ai : GoogleGenAI)
  | ClipboardSettles (id : N) (ok : bool)
  | TimerFires (id : N)
  | ReaderLoads (id : N) (result : option (list N))
      (pdfjsLib : option PdfJs.Lib)
  | ReaderFails (id : N)
  | TimePasses (d : N).

(** One turn of the loop; [None] when the event cannot happen: the control
    is disabled or not rendered, the task is not pending, the timer is not
    due. The effects of a call of [translateText] are logged when its
    promise settles. *)
Definition step (e : Event) (w : World) : option World :=
  match e with
  | ClickTranslate =>
      if isLoading (ui w) || negb (truthy (inputText (ui w))) then None
      else Some (run_handler handleTranslate w)
  | ClickSwap => Some (with_ui (handleSwapLanguages (ui w)) w)
  | ClickCopy =>
      if truthy (translatedText (ui w)) then Some (run_handler handleCopy w)
      else None
  | ClickTab m => Some (with_ui (setInputMode m (ui w)) w)
  | EditText v =>
      match inputMode (ui w) with
      | InputMode.text => Some (with_ui (setInputText v (ui w)) w)
      | InputMode.file => None
      end
  | ChooseFile f =>
      match inputMode (ui w) with
      | InputMode.file => Some (run_handler (handleFileChange f) w)
      | InputMode.text => None
      end
  | TranslateSettles id ai =>
      match tasks w !! id with
      | Some (TranslatePending t sl tl) =>
          let '(r, eff) := translateText ai t sl tl in
          Some (with_ui (handleTranslate_settled r (ui w))
                  (log eff (finish id w)))
      | _ => None
      end
  | ClipboardSettles id ok =>
      match tasks w !! id with
      | Some (ClipboardPending t) =>
          if ok then
            Some (run_handler handleCopy_written
                    (with_clipboard t (finish id w)))
          else Some (finish id w)
      | _ => None
      end
  | TimerFires id =>
      match tasks w !! id with
      | Some (TimerPending due) =>
          if due <=? clock w then
            Some (with_ui (handleCopy_timeout (ui w)) (finish id w))
          else None
      | _ => None
      end
  | ReaderLoads id result pdfjsLib =>
      match tasks w !! id with
      | Some (ReaderPending _) =>
          let '(s, eff) := reader_onload pdfjsLib result (ui w) in
          Some (with_ui s (log eff (finish id w)))
      | _ => None
      end
  | ReaderFails id =>
      match tasks w !! id with
      | Some (ReaderPending _) =>
          Some (with_ui (reader_onerror (ui w)) (finish id w))
      | _ => None
      end
  | TimePasses d => Some (advance d w)
  end.

Fixpoint run (es : list Event) (w : World) : option World :=
  match es with
  | [] => Some w
  | e :: es' =>
      match step e w with
      | Some w' => run es' w'
      | None => None
      end
  end.

(** Task numbers are handed out in order: none in use is ahead of
    [next_id]. *)
Definition wf (w : World) : Prop :=
  forall id, is_Some (tasks w !! id) -> id < next_id w.

End Browser.

(** * Vocabulary of the properties *)

Import Types GeminiService App Browser.

(** The request [translateText] sends for a text. *)
Definition request_of (text : jsstring) (sourceLang targetLang : Language)
  : GenRequest :=
  {| model := lit "gemini-2.5-flash";
     contents := prompt_of text sourceLang targetLang;
     thinkingBudget := 0 |}.

(** Why a generation call yields no text: the promise was rejected (network
    or service error), or the response carries no text and reading it
    throws. *)
Definition failure_cause (r : Completion GenResponse) : option Thrown :=
  match r with
  | Throw e => Some e
  | Normal {| GeminiService.text := None |} =>
      Some (ErrorObj (lit "TypeError")
              (lit "Cannot read properties of undefined (reading 'trim')"))
  | Normal {| GeminiService.text := Some _ |} => None
  end.

(** A service that answers every request with the same response. *)
Definition const_ai (r : Completion GenResponse) : GoogleGenAI :=
  {| generateContent := fun _ => r |}.

(** A page holding the given text items. *)
Definition page_of (strs : list jsstring) : PdfJs.Page :=
  {| PdfJs.getTextContent :=
       Normal {| PdfJs.items := map PdfJs.Build_TextItem strs |} |}.

(** A document whose pages all load, given by the items of each page. *)
Definition document_of (pages : list (list jsstring)) : PdfJs.Document :=
  {| PdfJs.numPages := length pages;
     PdfJs.getPage := fun i =>
       match pages !! pred i with
       | Some strs => Normal (page_of strs)
       | None => Throw (newError (lit "Invalid page request."))
       end |}.

(** The text of page [i] is [t]. *)
Definition page_text_is (pdf : PdfJs.Document) (i : nat) (t : jsstring)
  : Prop :=
  exists page textContent,
    PdfJs.getPage pdf i = Normal page
    /\ PdfJs.getTextContent page = Normal textContent
    /\ pageText_of textContent = t.

(** Three pages of one item each: A, B and C. *)
Definition ABC_document : PdfJs.Document :=
  document_of [[lit "A"]; [lit "B"]; [lit "C"]].

(** A service whose every call is rejected. *)
Definition failing_ai : GoogleGenAI :=
  const_ai (Throw (newError (lit "fetch failed"))).

(** A text file of 200 MB. *)
Definition big_text_file : File.t :=
  {| File.name := lit "notes.txt";
     File.size := 200 * 1024 * 1024;
     File.type := lit "text/plain" |}.

(** A text file of 12 bytes. *)
Definition small_text_file : File.t :=
  {| File.name := lit "a.txt"; File.size := 12; File.type := lit "text/plain" |}.

(** The state with the four cells emptied that [handleFileChange] empties. *)
Definition cleared (s : UIState) : UIState :=
  mkUI (sourceLang s) (targetLang s) (inputMode s) [] [] (isLoading s)
    None None (copySuccess s).

(** A library that parses any bytes into that document. *)
Definition ABC_lib : PdfJs.Lib :=
  {| PdfJs.getDocument := fun _ => Normal ABC_document |}.

(** A service that answers every request with the same text. *)
Definition salut_ai : GoogleGenAI :=
  const_ai (Normal {| GeminiService.text := Some (lit "Salut") |}).

(** A run with a translation that fails while the feedback is on. *)
Definition demo_es0 : list Event :=
  [EditText (lit "Hi"); ClickTranslate; TranslateSettles 0 salut_ai].
Definition demo_es1 : list Event := [TimePasses 5].
Definition demo_es2 : list Event :=
  [ClickTranslate; TimePasses 1000; TranslateSettles 3 failing_ai;
   TimePasses 1000].

(** The world a run ends in; the start when the run cannot happen. *)
Definition world_after (es : list Event) (w : World) : World :=
  default w (run es w).

(** The worlds along that run: before the click on copy, after it, when the
    clipboard write is about to settle, once it has, and at the end. *)
Definition demo_w : World := world_after demo_es0 boot.
Definition demo_w1 : World := world_after [ClickCopy] demo_w.
Definition demo_w2 : World := world_after demo_es1 demo_w1.
Definition demo_w3 : World :=
  world_after [ClipboardSettles 1 true] demo_w2.
Definition demo_w4 : World := world_after demo_es2 demo_w3.

(** Page [i] does not load, and [e] is what its promise is rejected with:
    either [getPage] or [getTextContent] fails. *)
Definition page_fails (pdf : PdfJs.Document) (i : nat) (e : Thrown) : Prop :=
  PdfJs.getPage pdf i = Throw e
  \/ exists page,
       PdfJs.getPage pdf i = Normal page
       /\ PdfJs.getTextContent page = Throw e.

(** A file that passes both tests of [handleFileChange]. *)
Definition valid_pdf (f : File.t) : Prop :=
  File.size f <= max_file_size /\ File.type f = lit "application/pdf".

(** How [reader.onload] fails, with the message it shows and what it logs:
    nothing was read or the library is missing, or the extraction throws. *)
Definition onload_failure (pdfjsLib : option PdfJs.Lib)
    (result : option (list N)) : option (jsstring * list Effect) :=
  match result, pdfjsLib with
  | Some bytes, Some lib =>
      match extract_fullText lib bytes with
      | Normal _ => None
      | Throw pdfError =>
          Some (extract_error,
                [ConsoleError (lit "PDF parsing error:") pdfError])
      end
  | _, _ => Some (read_error, [])
  end.

(** The messages the component itself puts into [error]. *)
Definition shown_error (o : option jsstring) : Prop :=
  o = None \/ o = Some size_error \/ o = Some type_error
  \/ o = Some read_error \/ o = Some extract_error
  \/ o = Some reader_error \/ o = Some translation_failed_message.

(** The tasks that come with [isLoading]: a translation or a file read. *)
Definition is_busy (t : Task) : bool :=
  match t with
  | TranslatePending _ _ _ | ReaderPending _ => true
  | ClipboardPending _ | TimerPending _ => false
  end.

(** What holds of every task the component starts, at time [now]. *)
Definition task_ok (now : N) (t : Task) : Prop :=
  match t with
  | TranslatePending text _ _ => truthy (trim text) = true
  | ClipboardPending text => text <> []
  | TimerPending due => due <= now + copy_feedback_delay
  | ReaderPending f => valid_pdf f
  end.

(** The worlds the component can be in. *)
Definition reachable (w : World) : Prop :=
  exists es, run es boot = Some w.

(** The events that end a translation or a file read. *)
Definition ends_loading (e : Event) : bool :=
  match e with
  | TranslateSettles _ _ | ReaderLoads _ _ _ | ReaderFails _ => true
  | _ => false
  end.

(** The timers. *)
Definition is_timer (t : Task) : bool :=
  match t with
  | TimerPending _ => true
  | _ => false
  end.

(** What every world of a run satisfies. *)
Record Inv (w : World) : Prop := mkInv {
  inv_langs : sourceLang (ui w) <> targetLang (ui w);
  inv_error : shown_error (error (ui w));
  inv_loading :
    isLoading (ui w) = true ->
    exists id t, tasks w !! id = Some t /\ is_busy t = true;
  inv_copy :
    copySuccess (ui w) = true ->
    exists id t, tasks w !! id = Some t /\ is_timer t = true;
  inv_tasks : map_Forall (fun _ t => task_ok (clock w) t) (tasks w)
}.

(** The part of the prompt before the text, and the part after it. *)
Definition prompt_head (sourceLang targetLang : Language) : jsstring :=
  LF
  ++ lit "    You are an expert translator. Translate the following text from "
  ++ Language_str sourceLang ++ lit " to " ++ Language_str targetLang
  ++ lit "." ++ LF
  ++ lit "    Do not add any commentary, preamble, or explanation. Only return the translated text." ++ LF
  ++ lit "    Preserve the original formatting (like line breaks) as much as possible." ++ LF
  ++ LF
  ++ lit "    Text to translate:" ++ LF
  ++ lit "    ---" ++ LF
  ++ lit "    ".

Definition prompt_tail : jsstring := LF ++ lit "    ---" ++ LF ++ lit "  ".

(** * Properties *)

(** ** [trim] *)

Section Trim.

Implicit Types s : jsstring.

Lemma trimStart_blank s :
  forallb isWhiteSpace s = true -> trimStart s = [].
Proof.
  induction s as [|c r IH]; simpl; [done|].
  intros [Hc Hr]%andb_prop. rewrite Hc. auto.
Qed.

Lemma trimStart_split s :
  exists pre, s = pre ++ trimStart s /\ forallb isWhiteSpace pre = true.
Proof.
  induction s as [|c r [pre [Heq Hpre]]]; simpl.
  - exists []. done.
  - destruct (isWhiteSpace c) eqn:Hc.
    + exists (c :: pre). simpl. rewrite Hc, Hpre. split; [congruence|done].
    + exists []. done.
Qed.

Lemma trimStart_head s c r :
  trimStart s = c :: r -> isWhiteSpace c = false.
Proof.
  induction s as [|d t IH]; simpl; [done|].
  destruct (isWhiteSpace d) eqn:Hd; [auto|].
  intros [= <- _]. done.
Qed.

Lemma forallb_rev (f : N -> bool) s : forallb f (rev s) = forallb f s.
Proof.
  induction s as [|c r IH]; simpl; [done|].
  rewrite forallb_app, IH. simpl. rewrite andb_true_r. apply andb_comm.
Qed.

Lemma trimEnd_split s :
  exists post, s = trimEnd s ++ post /\ forallb isWhiteSpace post = true.
Proof.
  unfold trimEnd. destruct (trimStart_split (rev s)) as [pre [Heq Hpre]].
  exists (rev pre). split.
  - rewrite <- rev_app_distr, <- Heq. symmetry. apply rev_involutive.
  - by rewrite forallb_rev.
Qed.

Lemma trimEnd_last s c r :
  trimEnd s = r ++ [c] -> isWhiteSpace c = false.
Proof.
  unfold trimEnd. intros H.
  apply (f_equal (@rev N)) in H.
  rewrite rev_involutive, rev_app_distr in H. simpl in H.
  by apply trimStart_head in H.
Qed.

Lemma trimEnd_head s c r :
  trimEnd s = c :: r -> exists t, s = c :: t.
Proof.
  intros H. destruct (trimEnd_split s) as [post [Heq _]].
  rewrite H in Heq. simpl in Heq. eauto.
Qed.

(** [trim] cuts a run of white space off each end and nothing else. *)
Lemma trim_split s :
  exists pre post,
    s = pre ++ trim s ++ post
    /\ forallb isWhiteSpace pre = true
    /\ forallb isWhiteSpace post = true.
Proof.
  destruct (trimStart_split s) as [pre [H1 Hpre]].
  destruct (trimEnd_split (trimStart s)) as [post [H2 Hpost]].
  exists pre, post. unfold trim. by rewrite <- H2.
Qed.

Lemma trim_head s c r : trim s = c :: r -> isWhiteSpace c = false.
Proof.
  unfold trim. intros H.
  destruct (trimEnd_head _ _ _ H) as [t Ht].
  by apply trimStart_head in Ht.
Qed.

Lemma trim_last s c r : trim s = r ++ [c] -> isWhiteSpace c = false.
Proof. unfold trim. apply trimEnd_last. Qed.

Lemma trim_blank s : forallb isWhiteSpace s = true -> trim s = [].
Proof.
  intros H. unfold trim. by rewrite (trimStart_blank _ H).
Qed.

(** The test [!s.trim()] of both guards asks whether [s] is blank. *)
Lemma truthy_trim s :
  truthy (trim s) = negb (forallb isWhiteSpace s).
Proof.
  destruct (forallb isWhiteSpace s) eqn:Hs.
  - by rewrite trim_blank.
  - destruct (trim s) as [|c r] eqn:Ht; [|done].
    destruct (trim_split s) as (pre & post & Heq & Hpre & Hpost).
    rewrite Ht in Heq. simpl in Heq. subst s.
    rewrite forallb_app, Hpre, Hpost in Hs. done.
Qed.

End Trim.

(** ** The translation client *)


(** C1. For a text that is empty or consists of white space only,
    [translateText] returns the empty string and leaves an empty trace of
    effects: no call to the generation service goes out. *)
Theorem translateText_blank ai text sl tl :
  forallb isWhiteSpace text = true ->
  translateText ai text sl tl = (Normal [], [])
  /\ network_calls (snd (translateText ai text sl tl)) = [].
Proof.
  intros H.
  assert (Ht : translateText ai text sl tl = (Normal [], [])).
  { unfold translateText. by rewrite (trim_blank _ H). }
  rewrite Ht. done.
Qed.

Lemma translateText_blank_witness :
  translateText (const_ai (Normal {| GeminiService.text := Some (lit "x") |}))
    (lit "  " ++ LF ++ [9; 160]) arabic english = (Normal [], [])
  /\ network_calls
       (snd (translateText
               (const_ai (Normal {| GeminiService.text := Some (lit "x") |}))
               (lit "  " ++ LF ++ [9; 160]) arabic english)) = [].
Proof. apply translateText_blank. reflexivity. Defined.

(** C6. Whatever makes the generation call fail, a rejected promise with
    any error value or a response without text, [translateText] throws the
    same new [Error] with the fixed message; the underlying cause only goes
    to the console. *)
Theorem translateText_failure ai text sl tl cause :
  truthy (trim text) = true ->
  failure_cause (generateContent ai (request_of text sl tl)) = Some cause ->
  translateText ai text sl tl
  = (Throw (newError translation_failed_message),
     [NetworkCall (request_of text sl tl);
      ConsoleError (lit "Gemini API Error:") cause]).
Proof.
  intros Ht Hc. unfold translateText. rewrite Ht. simpl.
  unfold await_generateContent, text_trim.
  fold (request_of text sl tl).
  destruct (generateContent ai (request_of text sl tl)) as [[[t|]]|e];
    simpl in Hc; [done| |]; injection Hc as <-; reflexivity.
Qed.

Lemma translateText_failure_witness :
  translateText (const_ai (Throw (OtherValue (lit "503")))) (lit "Hello")
    english arabic
  = (Throw (newError translation_failed_message),
     [NetworkCall (request_of (lit "Hello") english arabic);
      ConsoleError (lit "Gemini API Error:") (OtherValue (lit "503"))])
  /\ translateText (const_ai (Normal {| GeminiService.text := None |}))
       (lit "Hello") english arabic
     = (Throw (newError translation_failed_message),
        [NetworkCall (request_of (lit "Hello") english arabic);
         ConsoleError (lit "Gemini API Error:")
           (ErrorObj (lit "TypeError")
              (lit "Cannot read properties of undefined (reading 'trim')"))]).
Proof.
  split; apply translateText_failure; reflexivity.
Defined.

(** C7. When the generation call succeeds with text [raw],
    [translateText] returns [raw] with the white space at its two ends cut
    off and nothing else changed: [raw] is white space, then the result,
    then white space, and the result neither starts nor ends with white
    space. Nothing is written to the console. *)
Theorem translateText_success ai text sl tl raw :
  truthy (trim text) = true ->
  generateContent ai (request_of text sl tl)
  = Normal {| GeminiService.text := Some raw |} ->
  translateText ai text sl tl
  = (Normal (trim raw), [NetworkCall (request_of text sl tl)])
  /\ (exists pre post,
        raw = pre ++ trim raw ++ post
        /\ forallb isWhiteSpace pre = true
        /\ forallb isWhiteSpace post = true)
  /\ (forall c r, trim raw = c :: r -> isWhiteSpace c = false)
  /\ (forall c r, trim raw = r ++ [c] -> isWhiteSpace c = false).
Proof.
  intros Ht Hg. split; [|split; [apply trim_split|split]].
  - unfold translateText. rewrite Ht. simpl.
    unfold await_generateContent, text_trim.
    fold (request_of text sl tl). rewrite Hg. reflexivity.
  - apply trim_head.
  - apply trim_last.
Qed.

Lemma translateText_success_witness :
  let ai :=
    const_ai
      (Normal {| GeminiService.text := Some (LF ++ LF ++ lit " Hello" ++ LF) |})
  in
  translateText ai (lit "abc") arabic english
  = (Normal (lit "Hello"), [NetworkCall (request_of (lit "abc") arabic english)]).
Proof.
  intros ai.
  exact (proj1 (translateText_success ai (lit "abc") arabic english
                  (LF ++ LF ++ lit " Hello" ++ LF) eq_refl eq_refl)).
Defined.

(** ** The interaction controller *)

(** *** Swap languages *)

(** C2. [handleSwapLanguages] exchanges [sourceLang] with [targetLang] and
    [inputText] with [translatedText], leaves the other five cells as they
    were, and done twice gives the state back. *)
Theorem handleSwapLanguages_involution (s : UIState) :
  let s' := handleSwapLanguages s in
  sourceLang s' = targetLang s
  /\ targetLang s' = sourceLang s
  /\ inputText s' = translatedText s
  /\ translatedText s' = inputText s
  /\ inputMode s' = inputMode s
  /\ isLoading s' = isLoading s
  /\ error s' = error s
  /\ fileName s' = fileName s
  /\ copySuccess s' = copySuccess s
  /\ handleSwapLanguages s' = s.
Proof. destruct s. cbv. repeat split. Qed.

(** The example of the specification: the Arabic for hello, U+0645 U+0631
    U+062D U+0628 U+0627, against its translation. *)
Example handleSwapLanguages_marhaba :
  let s :=
    mkUI arabic english InputMode.text [1605; 1585; 1581; 1576; 1575]
      (lit "Hello") false None None false in
  handleSwapLanguages s
  = mkUI english arabic InputMode.text (lit "Hello")
      [1605; 1585; 1581; 1576; 1575] false None None false.
Proof. reflexivity. Qed.

(** *** Text of a PDF *)

Lemma extract_loop_step pdf remaining i fullText t :
  page_text_is pdf i t ->
  extract_loop pdf (S remaining) i fullText
  = extract_loop pdf remaining (S i) (fullText ++ (t ++ LF ++ LF)).
Proof.
  intros (page & tc & Hp & Hc & Ht). simpl. rewrite Hp, Hc, Ht. done.
Qed.

(** C3 as it stands fails on such a document: when the loop is left
    [fullText] still ends with the separator of the last page. *)
Lemma extract_loop_ABC_untrimmed :
  page_text_is ABC_document 1 (lit "A")
  /\ page_text_is ABC_document 2 (lit "B")
  /\ page_text_is ABC_document 3 (lit "C")
  /\ extract_loop ABC_document (PdfJs.numPages ABC_document) 1%nat []
     = Normal (lit "A" ++ LF ++ LF ++ lit "B" ++ LF ++ LF ++ lit "C"
               ++ LF ++ LF)
  /\ extract_loop ABC_document (PdfJs.numPages ABC_document) 1%nat []
     <> Normal (lit "A" ++ LF ++ LF ++ lit "B" ++ LF ++ LF ++ lit "C").
Proof.
  repeat split; try (do 2 eexists; repeat split; reflexivity).
  vm_compute. discriminate.
Qed.

(** C3, amended. For a document of three pages with the texts A, B and C
    the loop leaves [fullText] as each page followed by a blank line, the
    last one too; it is [trim] that gives A, blank line, B, blank line, C,
    and this is what [reader.onload] stores as [inputText]. *)
Theorem extract_three_pages (lib : PdfJs.Lib) (bytes : list N)
    (pdf : PdfJs.Document) (s : UIState) :
  PdfJs.getDocument lib bytes = Normal pdf ->
  PdfJs.numPages pdf = 3%nat ->
  page_text_is pdf 1 (lit "A") ->
  page_text_is pdf 2 (lit "B") ->
  page_text_is pdf 3 (lit "C") ->
  extract_fullText lib bytes
  = Normal (lit "A" ++ LF ++ LF ++ lit "B" ++ LF ++ LF ++ lit "C"
            ++ LF ++ LF)
  /\ inputText (fst (reader_onload (Some lib) (Some bytes) s))
     = lit "A" ++ LF ++ LF ++ lit "B" ++ LF ++ LF ++ lit "C".
Proof.
  intros Hd Hn H1 H2 H3.
  assert (Hx : extract_fullText lib bytes
               = Normal (lit "A" ++ LF ++ LF ++ lit "B" ++ LF ++ LF
                         ++ lit "C" ++ LF ++ LF)).
  { unfold extract_fullText. rewrite Hd, Hn.
    rewrite (extract_loop_step _ _ _ _ _ H1).
    rewrite (extract_loop_step _ _ _ _ _ H2).
    rewrite (extract_loop_step _ _ _ _ _ H3).
    reflexivity. }
  split; [exact Hx|].
  unfold reader_onload. rewrite Hx. reflexivity.
Qed.

Lemma extract_three_pages_witness :
  let lib := {| PdfJs.getDocument := fun _ => Normal ABC_document |} in
  extract_fullText lib [37; 80; 68; 70]
  = Normal (lit "A" ++ LF ++ LF ++ lit "B" ++ LF ++ LF ++ lit "C"
            ++ LF ++ LF)
  /\ inputText (fst (reader_onload (Some lib) (Some [37; 80; 68; 70]) initial))
     = lit "A" ++ LF ++ LF ++ lit "B" ++ LF ++ LF ++ lit "C".
Proof.
  intros lib.
  apply (extract_three_pages lib [37; 80; 68; 70] ABC_document initial);
    [reflexivity | reflexivity | | | ];
    (do 2 eexists; repeat split; reflexivity).
Defined.

(** *** Request translation *)

(** [translateText] throws nothing but its own error. *)
Lemma translateText_throws ai text sl tl e t :
  translateText ai text sl tl = (Throw e, t) ->
  e = newError translation_failed_message.
Proof.
  unfold translateText. destruct (truthy (trim text)); simpl; [|done].
  unfold await_generateContent, text_trim.
  destruct (generateContent ai _) as [[[raw|]]|e']; simpl; congruence.
Qed.

(** C4 as it stands fails for an input of one space, which is not
    empty, so that the button is enabled: after a failed translation and an
    edit, the click neither sets [isLoading] nor clears the old error, and
    starts no call. *)
Lemma handleTranslate_blank_input :
  exists w w',
    run [EditText (lit "x"); ClickTranslate; TranslateSettles 0 failing_ai;
         EditText (lit " ")] boot = Some w
    /\ inputText (ui w) = lit " "
    /\ truthy (inputText (ui w)) = true
    /\ step ClickTranslate w = Some w'
    /\ isLoading (ui w') = false
    /\ error (ui w') = Some translation_failed_message
    /\ tasks w' = ∅
    /\ handleTranslate (ui w) = (setTranslatedText [] (ui w), []).
Proof.
  do 2 eexists. split; [vm_compute; reflexivity|].
  repeat split.
Qed.

(** C4, amended. For an input that is not blank (it keeps a character when
    trimmed), [handleTranslate] sets [isLoading], clears [error] and
    [translatedText] and calls [translateText] on the input and the two
    languages. When that call throws, the callback leaves [isLoading]
    false, [translatedText] empty as cleared, and [error] set to a message
    that is not empty. The callback of a failed call never writes
    [translatedText]; however the call ends and whatever the state is by
    then, [isLoading] is false afterwards. *)
Theorem handleTranslate_failure (s : UIState) :
  truthy (trim (inputText s)) = true ->
  let s1 := fst (handleTranslate s) in
  isLoading s1 = true
  /\ error s1 = None
  /\ translatedText s1 = []
  /\ snd (handleTranslate s)
     = [CallTranslateText (inputText s) (sourceLang s) (targetLang s)]
  /\ (forall ai e t,
        translateText ai (inputText s) (sourceLang s) (targetLang s)
        = (Throw e, t) ->
        let s2 := handleTranslate_settled (Throw e) s1 in
        isLoading s2 = false
        /\ translatedText s2 = []
        /\ exists m, error s2 = Some m /\ m <> [])
  /\ (forall e s',
        translatedText (handleTranslate_settled (Throw e) s')
        = translatedText s')
  /\ (forall r s', isLoading (handleTranslate_settled r s') = false).
Proof.
  intros Ht. unfold handleTranslate. rewrite Ht. simpl.
  do 4 (split; [reflexivity|]). split; [|split].
  - intros ai e t Hc. apply translateText_throws in Hc. subst e. simpl.
    do 2 (split; [reflexivity|]).
    eexists. split; [reflexivity|]. vm_compute. discriminate.
  - intros [n m|v] s'; reflexivity.
  - intros [v|[n m|v]] s'; reflexivity.
Qed.

Lemma handleTranslate_failure_witness :
  let s :=
    mkUI english arabic InputMode.text (lit "Hello") (lit "old") false
      (Some (lit "stale")) None false in
  let s1 := fst (handleTranslate s) in
  let s2 :=
    handleTranslate_settled (Throw (newError translation_failed_message)) s1 in
  isLoading s1 = true /\ error s1 = None /\ translatedText s1 = []
  /\ isLoading s2 = false /\ translatedText s2 = []
  /\ exists m, error s2 = Some m /\ m <> [].
Proof.
  intros s s1 s2.
  destruct (handleTranslate_failure s eq_refl) as (H1 & H2 & H3 & _ & H5 & _).
  destruct (H5 failing_ai (newError translation_failed_message)
              [NetworkCall (request_of (lit "Hello") english arabic);
               ConsoleError (lit "Gemini API Error:")
                 (newError (lit "fetch failed"))]
              eq_refl) as (H6 & H7 & H8).
  exact (conj H1 (conj H2 (conj H3 (conj H6 (conj H7 H8))))).
Defined.

(** *** Upload file *)

(** C5 as it stands fails for a file that is both too large and not
    a PDF: the size is tested first, so the error is the one of the size
    limit and not the one of the type. *)
Lemma handleFileChange_big_text_file :
  max_file_size < File.size big_text_file
  /\ File.type big_text_file <> lit "application/pdf"
  /\ error (fst (handleFileChange (Some big_text_file) initial))
     = Some size_error
  /\ error (fst (handleFileChange (Some big_text_file) initial))
     <> Some type_error.
Proof. repeat split; vm_compute; discriminate. Qed.

(** C5, amended. For a file that is larger than 100 MB or whose type is not
    that of a PDF, [handleFileChange] leaves [inputText] empty, starts no
    read of the file and does not touch [isLoading]; the error is the one of
    the size limit when the file is too large, and the one of the type when
    the file is within the limit and not a PDF. *)
Theorem handleFileChange_rejected (f : File.t) (s : UIState) :
  max_file_size < File.size f \/ File.type f <> lit "application/pdf" ->
  let r := handleFileChange (Some f) s in
  inputText (fst r) = []
  /\ snd r = []
  /\ isLoading (fst r) = isLoading s
  /\ fileName (fst r) = None
  /\ error (fst r)
     = Some (if max_file_size <? File.size f then size_error else type_error).
Proof.
  intros H. unfold handleFileChange.
  destruct (N.ltb_spec max_file_size (File.size f)) as [Hlt|Hge].
  - repeat split.
  - destruct H as [H|H]; [lia|].
    rewrite bool_decide_eq_false_2 by done. repeat split.
Qed.

Lemma handleFileChange_rejected_witness :
  let r :=
    handleFileChange (Some small_text_file)
      (setInputText (lit "typed") initial) in
  inputText (fst r) = [] /\ snd r = [] /\ error (fst r) = Some type_error.
Proof.
  assert (Hrej : max_file_size < File.size small_text_file
                 \/ File.type small_text_file <> lit "application/pdf").
  { right. vm_compute. discriminate. }
  destruct (handleFileChange_rejected small_text_file
              (setInputText (lit "typed") initial) Hrej)
    as (H1 & H2 & _ & _ & H5).
  split; [exact H1 | split; [exact H2 | exact H5]].
Defined.

(** C9. For every file, accepted or not, [handleFileChange] empties
    [error], [fileName], [inputText] and [translatedText] before it looks at
    the file: what it does afterwards starts from the emptied state, so that
    [error] and [fileName] hold what the tests of the file write and nothing
    older, and [inputText] and [translatedText] are empty when it returns.
    A file that is turned down costs the typed text and the last
    translation. *)
Theorem handleFileChange_clears_first (f : File.t) (s : UIState) :
  let r := handleFileChange (Some f) s in
  let too_large := max_file_size <? File.size f in
  let is_pdf := bool_decide (File.type f = lit "application/pdf") in
  r = handleFileChange (Some f) (cleared s)
  /\ inputText (fst r) = []
  /\ translatedText (fst r) = []
  /\ fileName (fst r)
     = (if too_large || negb is_pdf then None else Some (File.name f))
  /\ error (fst r)
     = (if too_large then Some size_error
        else if is_pdf then None else Some type_error)
  /\ sourceLang (fst r) = sourceLang s
  /\ targetLang (fst r) = targetLang s
  /\ inputMode (fst r) = inputMode s
  /\ copySuccess (fst r) = copySuccess s.
Proof.
  unfold handleFileChange.
  destruct (max_file_size <? File.size f);
    [|destruct (bool_decide (File.type f = lit "application/pdf"))];
    simpl; repeat split.
Qed.

Example handleFileChange_rejected_erases :
  let s :=
    mkUI arabic english InputMode.file (lit "typed") (lit "translated")
      false None None false in
  fst (handleFileChange (Some big_text_file) s)
  = mkUI arabic english InputMode.file [] [] false (Some size_error) None
      false.
Proof. reflexivity. Qed.

(** A loop that comes to its end has loaded every page, and its [fullText]
    is what it started from, then each page text followed by a blank
    line. *)
Lemma extract_loop_success pdf remaining :
  forall i acc fullText,
    extract_loop pdf remaining i acc = Normal fullText ->
    exists ts : list jsstring,
      length ts = remaining
      /\ (forall k t, ts !! k = Some t -> page_text_is pdf (i + k)%nat t)
      /\ fullText = acc ++ concat (map (fun t => t ++ LF ++ LF) ts).
Proof.
  induction remaining as [|n IH]; intros i acc fullText; simpl.
  - intros [= <-]. exists []. repeat split; [done|]. by rewrite app_nil_r.
  - destruct (PdfJs.getPage pdf i) as [page|e] eqn:Hp; [|done].
    destruct (PdfJs.getTextContent page) as [tc|e] eqn:Hc; [|done].
    intros H. destruct (IH _ _ _ H) as (ts & Hlen & Hpages & Heq).
    exists (pageText_of tc :: ts). split; [simpl; congruence|]. split.
    + intros [|k] t Hk; simpl in Hk.
      * injection Hk as <-. rewrite Nat.add_0_r. by exists page, tc.
      * rewrite Nat.add_succ_r. by apply Hpages.
    + rewrite Heq. simpl. by rewrite <- !app_assoc.
Qed.

(** C10. When the text of the PDF has been extracted (the document and all
    its pages loaded), [reader.onload] stores the trimmed [fullText], which
    is the page texts each followed by a blank line, as [inputText], and
    sets [inputMode] to text, whatever it was; it ends the loading and
    leaves the other cells alone. *)
Theorem reader_onload_success (lib : PdfJs.Lib) (bytes : list N)
    (fullText : jsstring) (s : UIState) :
  extract_fullText lib bytes = Normal fullText ->
  let s' := fst (reader_onload (Some lib) (Some bytes) s) in
  inputText s' = trim fullText
  /\ inputMode s' = InputMode.text
  /\ isLoading s' = false
  /\ sourceLang s' = sourceLang s
  /\ targetLang s' = targetLang s
  /\ translatedText s' = translatedText s
  /\ error s' = error s
  /\ fileName s' = fileName s
  /\ copySuccess s' = copySuccess s
  /\ exists pdf (ts : list jsstring),
       PdfJs.getDocument lib bytes = Normal pdf
       /\ length ts = PdfJs.numPages pdf
       /\ (forall k t, ts !! k = Some t -> page_text_is pdf (1 + k)%nat t)
       /\ fullText = concat (map (fun t => t ++ LF ++ LF) ts).
Proof.
  intros Hx. unfold reader_onload. rewrite Hx. simpl.
  do 9 (split; [reflexivity|]).
  unfold extract_fullText in Hx.
  destruct (PdfJs.getDocument lib bytes) as [pdf|e]; [|done].
  destruct (extract_loop_success _ _ _ _ _ Hx) as (ts & Hlen & Hpages & Heq).
  exists pdf, ts. done.
Qed.

Lemma reader_onload_success_witness :
  let s :=
    mkUI arabic english InputMode.file [] [] true None
      (Some (lit "abc.pdf")) false in
  let s' := fst (reader_onload (Some ABC_lib) (Some [37; 80; 68; 70]) s) in
  inputText s' = lit "A" ++ LF ++ LF ++ lit "B" ++ LF ++ LF ++ lit "C"
  /\ inputMode s' = InputMode.text.
Proof.
  intros s s'.
  destruct (reader_onload_success ABC_lib [37; 80; 68; 70]
              (lit "A" ++ LF ++ LF ++ lit "B" ++ LF ++ LF ++ lit "C"
               ++ LF ++ LF) s eq_refl)
    as (H1 & H2 & _).
  exact (conj H1 H2).
Defined.

(** The same through the event loop: choosing a PDF in the file tab ends in
    the text tab. *)
Example upload_switches_to_text :
  let f :=
    {| File.name := lit "abc.pdf"; File.size := 4;
       File.type := lit "application/pdf" |} in
  option_map ui
    (run [ClickTab InputMode.file; ChooseFile (Some f);
          ReaderLoads 0 (Some [37; 80; 68; 70]) (Some ABC_lib)] boot)
  = Some (mkUI arabic english InputMode.text
            (lit "A" ++ LF ++ LF ++ lit "B" ++ LF ++ LF ++ lit "C") []
            false None (Some (lit "abc.pdf")) false).
Proof. reflexivity. Qed.

(** *** Copy result *)

Section EventLoop.

Implicit Types (w : World) (e : Event) (id : N).

Lemma wf_boot : wf boot.
Proof. intros id [t Ht]. simpl in Ht. by rewrite lookup_empty in Ht. Qed.

(** What starting tasks changes: new numbers from [next_id] on, and nothing
    else. *)
Lemma foldl_spawn_spec cmds :
  forall w,
    let w' := foldl spawn w cmds in
    ui w' = ui w /\ clock w' = clock w /\ clipboard w' = clipboard w
    /\ next_id w <= next_id w'
    /\ (forall id, id < next_id w -> tasks w' !! id = tasks w !! id)
    /\ (wf w -> wf w').
Proof.
  induction cmds as [|c cmds IH]; intros w; simpl.
  - repeat split; auto; lia.
  - destruct (IH (spawn w c)) as (Hu & Hc & Hb & Hn & Hl & Hw).
    simpl in *. split; [done|]. split; [done|]. split; [done|].
    split; [lia|]. split.
    + intros id Hid. rewrite Hl by lia. apply lookup_insert_ne. lia.
    + intros Hwf. apply Hw. intros id. simpl.
      rewrite lookup_insert_is_Some. intros [->|[_ H]]; [lia|].
      specialize (Hwf id H). lia.
Qed.

Lemma run_handler_spec h w :
  let w' := run_handler h w in
  ui w' = fst (h (ui w)) /\ clock w' = clock w /\ clipboard w' = clipboard w
  /\ next_id w <= next_id w'
  /\ (forall id, id < next_id w -> tasks w' !! id = tasks w !! id)
  /\ (wf w -> wf w').
Proof.
  unfold run_handler. destruct (h (ui w)) as [s cmds].
  destruct (foldl_spawn_spec cmds (with_ui s w))
    as (Hu & Hc & Hb & Hn & Hl & Hw).
  simpl in *. done.
Qed.

Lemma wf_finish id w : wf w -> wf (finish id w).
Proof.
  intros Hwf id'. simpl. intros [t [_ Ht]%lookup_delete_Some].
  apply Hwf. eauto.
Qed.

(** The invariants of one turn of the loop: numbers are never reused, the
    clock does not run backwards, a pending task is not replaced, and a
    timer stays pending until it fires. *)
Lemma step_spec e w w' :
  step e w = Some w' ->
  wf w ->
  wf w'
  /\ next_id w <= next_id w'
  /\ clock w <= clock w'
  /\ (forall id t, id < next_id w ->
        tasks w' !! id = Some t -> tasks w !! id = Some t)
  /\ (forall id due, tasks w !! id = Some (TimerPending due) ->
        e <> TimerFires id -> tasks w' !! id = Some (TimerPending due)).
Proof.
  intros Hs Hwf.
  assert (Hh : forall h w0, wf w0 -> next_id w0 = next_id w ->
            clock w0 = clock w ->
            (forall id t, tasks w0 !! id = Some t -> tasks w !! id = Some t) ->
            forall keep : N -> Prop,
            (forall id t, keep id -> tasks w !! id = Some t ->
               tasks w0 !! id = Some t) ->
            let w1 := run_handler h w0 in
            wf w1 /\ next_id w <= next_id w1 /\ clock w <= clock w1
            /\ (forall id t, id < next_id w ->
                  tasks w1 !! id = Some t -> tasks w !! id = Some t)
            /\ (forall id due, tasks w !! id = Some (TimerPending due) ->
                  keep id -> tasks w1 !! id = Some (TimerPending due))).
  { intros h w0 Hwf0 Hn0 Hc0 Hback keep Hkeep.
    destruct (run_handler_spec h w0) as (_ & Hc & _ & Hn & Hl & Hw).
    simpl. repeat split; [auto|lia|lia| |].
    - intros id t Hid. rewrite Hl by lia. apply Hback.
    - intros id due Hid Hk. rewrite Hl; [by apply Hkeep|].
      rewrite Hn0. apply Hwf. eauto. }
  assert (Hf : forall id0 s eff,
            tasks w !! id0 <> None ->
            let w1 := with_ui s (log eff (finish id0 w)) in
            wf w1 /\ next_id w <= next_id w1 /\ clock w <= clock w1
            /\ (forall id t, id < next_id w ->
                  tasks w1 !! id = Some t -> tasks w !! id = Some t)
            /\ (forall id due, tasks w !! id = Some (TimerPending due) ->
                  id <> id0 -> tasks w1 !! id = Some (TimerPending due))).
  { intros id0 s eff _. simpl. repeat split; [|lia|lia| |].
    - intros id. simpl. intros [t [_ Ht]%lookup_delete_Some].
      apply Hwf. eauto.
    - intros id t _ [_ Ht]%lookup_delete_Some. done.
    - intros id due Hid Hne. rewrite lookup_delete_ne; done. }
  destruct e; simpl in Hs.
  - (* ClickTranslate *)
    destruct (isLoading (ui w) || negb (truthy (inputText (ui w)))); [done|].
    injection Hs as <-.
    destruct (Hh handleTranslate w Hwf eq_refl eq_refl (fun _ _ H => H)
                (fun _ => True) (fun _ _ _ H => H)) as (?&?&?&?&Hk).
    repeat split; auto.
  - (* ClickSwap *)
    injection Hs as <-. simpl. repeat split; auto; lia.
  - (* ClickCopy *)
    destruct (truthy (translatedText (ui w))); [|done].
    injection Hs as <-.
    destruct (Hh handleCopy w Hwf eq_refl eq_refl (fun _ _ H => H)
                (fun _ => True) (fun _ _ _ H => H)) as (?&?&?&?&Hk).
    repeat split; auto.
  - (* ClickTab *)
    injection Hs as <-. simpl. repeat split; auto; lia.
  - (* EditText *)
    destruct (inputMode (ui w)); [|done].
    injection Hs as <-. simpl. repeat split; auto; lia.
  - (* ChooseFile *)
    destruct (inputMode (ui w)); [done|].
    injection Hs as <-.
    destruct (Hh (handleFileChange f) w Hwf eq_refl eq_refl (fun _ _ H => H)
                (fun _ => True) (fun _ _ _ H => H)) as (?&?&?&?&Hk).
    repeat split; auto.
  - (* TranslateSettles *)
    destruct (tasks w !! id) as [[t sl tl| | |]|] eqn:Ht; try done.
    destruct (translateText ai t sl tl) as [r eff].
    injection Hs as <-.
    destruct (Hf id (handleTranslate_settled r (ui w)) eff) as (?&?&?&?&Hk);
      [congruence|].
    repeat split; auto.
    intros id' due Hid _. apply Hk; [done|]. congruence.
  - (* ClipboardSettles *)
    destruct (tasks w !! id) as [[| t | |]|] eqn:Ht; try done.
    destruct ok; injection Hs as <-.
    + destruct (Hh handleCopy_written (with_clipboard t (finish id w))
                  (wf_finish id w Hwf) eq_refl eq_refl
                  (fun id' t' H => proj2 (proj1 (lookup_delete_Some _ _ _ _) H))
                  (fun id' => id' <> id)
                  (fun id' t' Hne H =>
                     eq_trans (lookup_delete_ne (tasks w) id id' (not_eq_sym Hne)) H))
        as (?&?&?&?&Hk).
      repeat split; auto.
      intros id' due Hid _. apply Hk; [done|]. congruence.
    + destruct (Hf id (ui w) []) as (Hw1&?&?&?&Hk); [congruence|].
      repeat split; auto.
      intros id' due Hid _. apply Hk; [done|]. congruence.
  - (* TimerFires *)
    destruct (tasks w !! id) as [[| | due |]|] eqn:Ht; try done.
    destruct (due <=? clock w); [|done].
    injection Hs as <-.
    destruct (Hf id (handleCopy_timeout (ui w)) []) as (Hw1&?&?&?&Hk);
      [congruence|].
    repeat split; auto.
    intros id' due' Hid Hne. apply Hk; [done|]. congruence.
  - (* ReaderLoads *)
    destruct (tasks w !! id) as [[| | | f]|] eqn:Ht; try done.
    destruct (reader_onload pdfjsLib result (ui w)) as [s eff].
    injection Hs as <-.
    destruct (Hf id s eff) as (?&?&?&?&Hk); [congruence|].
    repeat split; auto.
    intros id' due Hid _. apply Hk; [done|]. congruence.
  - (* ReaderFails *)
    destruct (tasks w !! id) as [[| | | f]|] eqn:Ht; try done.
    injection Hs as <-.
    destruct (Hf id (reader_onerror (ui w)) []) as (Hw1&?&?&?&Hk);
      [congruence|].
    repeat split; auto.
    intros id' due Hid _. apply Hk; [done|]. congruence.
  - (* TimePasses *)
    injection Hs as <-. simpl. repeat split; auto; lia.
Qed.

End EventLoop.









(** The timer of an earlier copy is not cancelled by a later one: it cuts
    the feedback of the later copy short, here 500 ms after that copy
    succeeded, while the later timer is still pending. *)
Example earlier_timer_cuts_feedback :
  let w :=
    world_after
      (demo_es0
       ++ [ClickCopy; ClipboardSettles 1 true; TimePasses 1500;
           ClickCopy; ClipboardSettles 3 true; TimePasses 500;
           TimerFires 2]) boot in
  clock w = 2000
  /\ copySuccess (ui w) = false
  /\ tasks w !! 4 = Some (TimerPending 3500).
Proof. vm_compute. repeat split. Qed.

(** * Further properties of the code *)

(** ** [translateText] *)

Lemma trimStart_id (s : jsstring) :
  (forall c r, s = c :: r -> isWhiteSpace c = false) -> trimStart s = s.
Proof.
  destruct s as [|c r]; simpl; [done|].
  intros H. by rewrite (H c r eq_refl).
Qed.

Lemma trimEnd_id (s : jsstring) :
  (forall c r, s = r ++ [c] -> isWhiteSpace c = false) -> trimEnd s = s.
Proof.
  intros H. unfold trimEnd. rewrite trimStart_id; [apply rev_involutive|].
  intros c r Hr. apply (H c (rev r)).
  rewrite <- (rev_involutive s), Hr. reflexivity.
Qed.

Lemma trim_idem (s : jsstring) : trim (trim s) = trim s.
Proof.
  unfold trim at 1.
  rewrite trimStart_id by apply trim_head.
  apply trimEnd_id, trim_last.
Qed.

(** What [translateText] gives for a text that is not blank when the
    service answers with [raw]. *)
Lemma translateText_answer ai text sl tl raw :
  truthy (trim text) = true ->
  generateContent ai (request_of text sl tl)
  = Normal {| GeminiService.text := Some raw |} ->
  translateText ai text sl tl
  = (Normal (trim raw), [NetworkCall (request_of text sl tl)]).
Proof.
  intros Ht Hg. unfold translateText. rewrite Ht. simpl.
  unfold await_generateContent, text_trim.
  fold (request_of text sl tl). rewrite Hg. reflexivity.
Qed.

(** X1. A call of [translateText] ends in one of three ways, and none of
    them has more than one network call: for a blank text the empty string
    and no effect at all; after a response with text that text trimmed, with
    the one call as only effect; after a failed call the fixed error, with
    the one call and then the one line on the console. There is no second
    attempt. *)
Theorem translateText_outcomes ai text sl tl :
  (truthy (trim text) = false
   /\ translateText ai text sl tl = (Normal [], []))
  \/ (truthy (trim text) = true
      /\ exists raw,
           generateContent ai (request_of text sl tl)
           = Normal {| GeminiService.text := Some raw |}
           /\ translateText ai text sl tl
              = (Normal (trim raw), [NetworkCall (request_of text sl tl)]))
  \/ (truthy (trim text) = true
      /\ exists cause,
           failure_cause (generateContent ai (request_of text sl tl))
           = Some cause
           /\ translateText ai text sl tl
              = (Throw (newError translation_failed_message),
                 [NetworkCall (request_of text sl tl);
                  ConsoleError (lit "Gemini API Error:") cause])).
Proof.
  unfold translateText. destruct (truthy (trim text)); simpl; [|by left].
  right. unfold await_generateContent, text_trim.
  fold (request_of text sl tl).
  destruct (generateContent ai (request_of text sl tl)) as [[[raw|]]|e];
    simpl.
  - left. split; [done|]. by exists raw.
  - right. split; [done|]. by eexists.
  - right. split; [done|]. by eexists.
Qed.

(** X2. Whatever the service answers, a string that [translateText] returns
    neither starts nor ends with white space: trimming it again changes
    nothing. *)
Theorem translateText_result_trimmed ai text sl tl v t :
  translateText ai text sl tl = (Normal v, t) ->
  trim v = v.
Proof.
  unfold translateText. destruct (truthy (trim text)); simpl.
  - unfold await_generateContent, text_trim.
    destruct (generateContent ai _) as [[[raw|]]|e]; simpl; try done.
    intros [= <- _]. apply trim_idem.
  - by intros [= <- _].
Qed.

Lemma translateText_result_trimmed_witness :
  trim (lit "Bonjour  le monde") = lit "Bonjour  le monde".
Proof.
  exact (translateText_result_trimmed
           (const_ai (Normal {| GeminiService.text :=
                                  Some (lit "  Bonjour  le monde" ++ LF) |}))
           (lit "Hello  world") english arabic (lit "Bonjour  le monde")
           [NetworkCall (request_of (lit "Hello  world") english arabic)]
           eq_refl).
Defined.

(** ** [handleTranslate] *)

(** X3. A click on translate with an input that is not blank, followed by
    the answer of the service with text [raw] and nothing in between, leaves
    the trimmed [raw] as [translatedText], no error and [isLoading] off; the
    input, the languages and the other cells are as before the click, and
    one network call has been made. *)
Theorem translate_then_success (w w1 w2 : World) ai raw :
  truthy (trim (inputText (ui w))) = true ->
  generateContent ai
    (request_of (inputText (ui w)) (sourceLang (ui w)) (targetLang (ui w)))
  = Normal {| GeminiService.text := Some raw |} ->
  step ClickTranslate w = Some w1 ->
  step (TranslateSettles (next_id w) ai) w1 = Some w2 ->
  isLoading (ui w1) = true
  /\ ui w2 = setTranslatedText (trim raw) (setError None (ui w))
  /\ effects w2
     = effects w
       ++ [NetworkCall (request_of (inputText (ui w)) (sourceLang (ui w))
                          (targetLang (ui w)))]
  /\ tasks w2 !! next_id w = None.
Proof.
  intros Ht Hg H1 H2. simpl in H1.
  destruct (isLoading (ui w)) eqn:Hl; [done|]. simpl in H1.
  destruct (truthy (inputText (ui w))); [|done]. simpl in H1.
  injection H1 as <-.
  unfold run_handler, handleTranslate in H2 |- *. rewrite Ht in H2 |- *.
  simpl in H2 |- *. rewrite lookup_insert_eq in H2.
  rewrite (translateText_answer _ _ _ _ _ Ht Hg) in H2.
  injection H2 as <-. simpl.
  split; [done|]. split.
  - destruct (ui w). simpl in *. by subst.
  - split; [done|]. apply lookup_delete_eq.
Qed.

Lemma translate_then_success_witness :
  let w := world_after [EditText (lit "Hi")] boot in
  exists w1 w2,
    step ClickTranslate w = Some w1
    /\ step (TranslateSettles 0 salut_ai) w1 = Some w2
    /\ ui w2
       = mkUI arabic english InputMode.text (lit "Hi") (lit "Salut") false
           None None false.
Proof.
  intros w.
  exists (world_after [ClickTranslate] w),
    (world_after [ClickTranslate; TranslateSettles 0 salut_ai] w).
  split; [reflexivity|]. split; [vm_compute; reflexivity|].
  exact (proj1 (proj2
    (translate_then_success w (world_after [ClickTranslate] w)
       (world_after [ClickTranslate; TranslateSettles 0 salut_ai] w)
       salut_ai (lit "Salut") eq_refl eq_refl eq_refl
       ltac:(vm_compute; reflexivity)))).
Defined.

(** X4. For an input that is empty or all white space [handleTranslate]
    only empties [translatedText]: it starts no call, and it leaves [error],
    [isLoading] and every other cell as they are. *)
Theorem handleTranslate_blank (s : UIState) :
  forallb isWhiteSpace (inputText s) = true ->
  snd (handleTranslate s) = []
  /\ translatedText (fst (handleTranslate s)) = []
  /\ error (fst (handleTranslate s)) = error s
  /\ isLoading (fst (handleTranslate s)) = isLoading s
  /\ fst (handleTranslate s) = setTranslatedText [] s.
Proof.
  intros H. unfold handleTranslate. rewrite (trim_blank _ H). done.
Qed.

Lemma handleTranslate_blank_witness :
  let s :=
    mkUI arabic english InputMode.text (lit "  " ++ LF) (lit "old") false
      (Some translation_failed_message) None false in
  snd (handleTranslate s) = []
  /\ translatedText (fst (handleTranslate s)) = []
  /\ error (fst (handleTranslate s)) = Some translation_failed_message.
Proof.
  intros s.
  destruct (handleTranslate_blank s eq_refl) as (H1 & H2 & H3 & _).
  exact (conj H1 (conj H2 H3)).
Defined.

(** ** [handleFileChange] and [reader.onload] *)

(** X5. [handleFileChange] starts reading a file exactly when the file is at
    most 100 MB (104857600 bytes, the bound included) and its type is that
    of a PDF; it then shows the name of the file, turns [isLoading] on, and
    has no error and no text. For any other file nothing is started. *)
Theorem handleFileChange_reads_iff_valid (f : File.t) (s : UIState) :
  let r := handleFileChange (Some f) s in
  (snd r = [ReadAsArrayBuffer f] <-> valid_pdf f)
  /\ (snd r = [] <-> ~ valid_pdf f)
  /\ (valid_pdf f ->
      fst r
      = mkUI (sourceLang s) (targetLang s) (inputMode s) [] [] true None
          (Some (File.name f)) (copySuccess s)).
Proof.
  unfold handleFileChange, valid_pdf.
  destruct (N.ltb_spec max_file_size (File.size f)) as [Hlt|Hge]; simpl.
  - split; [|split].
    + split; [discriminate|]. intros [? _]. lia.
    + split; [|done]. intros _ [? _]. lia.
    + intros [? _]. lia.
  - destruct (decide (File.type f = lit "application/pdf")) as [Heq|Hne].
    + rewrite bool_decide_eq_true_2 by done. simpl. split; [|split].
      * split; [|done]. intros _. split; [lia|done].
      * split; [discriminate|]. intros H. destruct H. split; [lia|done].
      * reflexivity.
    + rewrite bool_decide_eq_false_2 by done. simpl. split; [|split].
      * split; [discriminate|]. by intros [_ ?].
      * split; [|done]. by intros _ [_ ?].
      * by intros [_ ?].
Qed.

Example handleFileChange_at_the_limit :
  let f n :=
    {| File.name := lit "a.pdf"; File.size := n;
       File.type := lit "application/pdf" |} in
  snd (handleFileChange (Some (f 104857600)) initial)
  = [ReadAsArrayBuffer (f 104857600)]
  /\ snd (handleFileChange (Some (f 104857601)) initial) = [].
Proof. split; reflexivity. Qed.

(** X6. When [reader.onload] fails, because nothing was read, or the PDF
    library is missing, or the extraction throws, it shows the message of
    that failure (the extraction error is logged to the console, not
    shown), turns [isLoading] off, and writes neither [inputText] nor
    [inputMode] nor any other cell. *)
Theorem reader_onload_failure pdfjsLib result (s : UIState) msg log :
  onload_failure pdfjsLib result = Some (msg, log) ->
  let r := reader_onload pdfjsLib result s in
  error (fst r) = Some msg
  /\ (msg = read_error \/ msg = extract_error)
  /\ snd r = log
  /\ isLoading (fst r) = false
  /\ inputText (fst r) = inputText s
  /\ inputMode (fst r) = inputMode s
  /\ translatedText (fst r) = translatedText s
  /\ fileName (fst r) = fileName s
  /\ sourceLang (fst r) = sourceLang s
  /\ targetLang (fst r) = targetLang s
  /\ copySuccess (fst r) = copySuccess s.
Proof.
  unfold onload_failure, reader_onload.
  destruct result as [bytes|], pdfjsLib as [lib|];
    try (intros [= <- <-]; simpl; repeat split; auto).
  destruct (extract_fullText lib bytes) as [ft|e]; [done|].
  intros [= <- <-]. simpl. repeat split; auto.
Qed.

Lemma reader_onload_failure_witness :
  let broken :=
    {| PdfJs.getDocument := fun _ =>
         Throw (newError (lit "Invalid PDF structure.")) |} in
  let s :=
    mkUI arabic english InputMode.file [] [] true None
      (Some (lit "x.pdf")) false in
  error (fst (reader_onload (Some broken) (Some [1; 2; 3]) s))
  = Some extract_error
  /\ error (fst (reader_onload None (Some [1; 2; 3]) s)) = Some read_error.
Proof.
  intros broken s.
  destruct (reader_onload_failure (Some broken) (Some [1; 2; 3]) s
              extract_error
              [ConsoleError (lit "PDF parsing error:")
                 (newError (lit "Invalid PDF structure."))] eq_refl)
    as (H1 & _).
  destruct (reader_onload_failure None (Some [1; 2; 3]) s read_error []
              eq_refl) as (H2 & _).
  exact (conj H1 H2).
Defined.

(** X7. The loop over the pages throws exactly when some page does not
    load, and what it throws is the error of the first such page: all pages
    before it loaded, and their text is dropped with the rest. *)
Theorem extract_loop_throws_iff pdf remaining :
  forall i acc e,
    extract_loop pdf remaining i acc = Throw e
    <-> exists k,
          (k < remaining)%nat
          /\ page_fails pdf (i + k) e
          /\ forall j, (j < k)%nat -> exists t, page_text_is pdf (i + j) t.
Proof.
  induction remaining as [|n IH]; intros i acc e; simpl.
  - split; [done|]. intros (k & Hk & _). lia.
  - destruct (PdfJs.getPage pdf i) as [page|e'] eqn:Hp.
    + destruct (PdfJs.getTextContent page) as [tc|e'] eqn:Hc.
      * rewrite IH. split.
        -- intros (k & Hk & Hf & Hb). exists (S k). split; [lia|].
           rewrite Nat.add_succ_r. split; [done|].
           intros [|j] Hj.
           ++ rewrite Nat.add_0_r. exists (pageText_of tc), page, tc. done.
           ++ rewrite Nat.add_succ_r. apply Hb. lia.
        -- intros ([|k] & Hk & Hf & Hb).
           ++ rewrite Nat.add_0_r in Hf.
              destruct Hf as [Hf|(page' & Hp' & Hc')]; [congruence|].
              rewrite Hp in Hp'. injection Hp' as <-. congruence.
           ++ exists k. split; [lia|]. rewrite Nat.add_succ_r in Hf.
              split; [done|]. intros j Hj.
              specialize (Hb (S j) ltac:(lia)).
              by rewrite Nat.add_succ_r in Hb.
      * split.
        -- intros [= <-]. exists 0%nat. split; [lia|].
           rewrite Nat.add_0_r. split; [right; eauto|]. intros j Hj. lia.
        -- intros ([|k] & Hk & Hf & Hb).
           ++ rewrite Nat.add_0_r in Hf.
              destruct Hf as [Hf|(page' & Hp' & Hc')]; [congruence|].
              rewrite Hp in Hp'. injection Hp' as <-. congruence.
           ++ destruct (Hb 0%nat ltac:(lia)) as (t & page' & tc & Hp' & Hc' & _).
              rewrite Nat.add_0_r in Hp'. rewrite Hp in Hp'.
              injection Hp' as <-. congruence.
    + split.
      * intros [= <-]. exists 0%nat. split; [lia|].
        rewrite Nat.add_0_r. split; [by left|]. intros j Hj. lia.
      * intros ([|k] & Hk & Hf & Hb).
        -- rewrite Nat.add_0_r in Hf.
           destruct Hf as [Hf|(page' & Hp' & _)]; congruence.
        -- destruct (Hb 0%nat ltac:(lia)) as (t & page' & tc & Hp' & _).
           rewrite Nat.add_0_r in Hp'. congruence.
Qed.

Lemma blank_page_separator (t : jsstring) :
  forallb isWhiteSpace t = true ->
  forallb isWhiteSpace (t ++ LF ++ LF) = true.
Proof. intros H. rewrite forallb_app, H. reflexivity. Qed.

Lemma extract_loop_blank pdf remaining :
  forall i acc,
    forallb isWhiteSpace acc = true ->
    (forall k, (k < remaining)%nat ->
       exists t, page_text_is pdf (i + k) t
                 /\ forallb isWhiteSpace t = true) ->
    exists fullText,
      extract_loop pdf remaining i acc = Normal fullText
      /\ forallb isWhiteSpace fullText = true.
Proof.
  induction remaining as [|n IH]; intros i acc Hacc Hpages.
  - exists acc. done.
  - destruct (Hpages 0%nat ltac:(lia)) as (t & Hp & Ht).
    rewrite Nat.add_0_r in Hp. rewrite (extract_loop_step _ _ _ _ _ Hp).
    apply IH.
    + rewrite forallb_app, Hacc. by apply blank_page_separator.
    + intros k Hk. specialize (Hpages (S k) ltac:(lia)).
      by rewrite Nat.add_succ_r in Hpages.
Qed.

(** X8. A PDF whose pages all load but carry no text other than white
    space, as pages of images do, and a PDF without pages, do not count as
    a failure: [reader.onload] shows no error, leaves [inputText] empty and
    switches to the text tab, where the translate button is then
    disabled. *)
Theorem reader_onload_blank_pdf (lib : PdfJs.Lib) (bytes : list N)
    (pdf : PdfJs.Document) (s : UIState) :
  PdfJs.getDocument lib bytes = Normal pdf ->
  (forall k, (k < PdfJs.numPages pdf)%nat ->
     exists t, page_text_is pdf (1 + k) t
               /\ forallb isWhiteSpace t = true) ->
  let r := reader_onload (Some lib) (Some bytes) s in
  inputText (fst r) = []
  /\ error (fst r) = error s
  /\ inputMode (fst r) = InputMode.text
  /\ isLoading (fst r) = false
  /\ snd r = []
  /\ truthy (inputText (fst r)) = false.
Proof.
  intros Hd Hpages.
  destruct (extract_loop_blank pdf (PdfJs.numPages pdf) 1%nat [] eq_refl
              Hpages) as (ft & Hx & Hb).
  unfold reader_onload, extract_fullText. rewrite Hd, Hx. simpl.
  rewrite (trim_blank _ Hb). done.
Qed.

Lemma reader_onload_blank_pdf_witness :
  let pdf := document_of [[]; [lit " "; lit ""]] in
  let lib := {| PdfJs.getDocument := fun _ => Normal pdf |} in
  let r := reader_onload (Some lib) (Some [37; 80; 68; 70]) initial in
  inputText (fst r) = [] /\ error (fst r) = None.
Proof.
  intros pdf lib r.
  assert (Hpages : forall k, (k < PdfJs.numPages pdf)%nat ->
            exists t, page_text_is pdf (1 + k) t
                      /\ forallb isWhiteSpace t = true).
  { intros [|[|k]] Hk; [| |simpl in Hk; lia].
    - exists []. split; [|reflexivity]. do 2 eexists. repeat split.
    - exists (lit "  "). split; [|reflexivity]. do 2 eexists. repeat split. }
  destruct (reader_onload_blank_pdf lib [37; 80; 68; 70] pdf initial eq_refl
              Hpages) as (H1 & H2 & _).
  exact (conj H1 H2).
Defined.

(** ** Invariants of the event loop *)

Section Invariants.

Implicit Types (w : World) (e : Event) (id : N) (m : gmap N Task).

Lemma below_delete n id m :
  (forall id', is_Some (m !! id') -> id' < n) ->
  forall id', is_Some (delete id m !! id') -> id' < n.
Proof.
  intros H id' [t [_ Ht]%lookup_delete_Some]. apply H. eauto.
Qed.

Lemma exists_insert_new (P : Task -> bool) m n t0 :
  P t0 = true ->
  exists id t, <[n:=t0]> m !! id = Some t /\ P t = true.
Proof. intros H. exists n, t0. by rewrite lookup_insert_eq. Qed.

Lemma exists_insert_old (P : Task -> bool) m n t0 :
  (forall id, is_Some (m !! id) -> id < n) ->
  (exists id t, m !! id = Some t /\ P t = true) ->
  exists id t, <[n:=t0]> m !! id = Some t /\ P t = true.
Proof.
  intros Hb (id & t & Ht & HP). exists id, t. split; [|done].
  rewrite lookup_insert_ne; [done|].
  assert (id < n) by (apply Hb; eauto). lia.
Qed.

Lemma exists_delete (P : Task -> bool) m id0 t0 :
  m !! id0 = Some t0 ->
  P t0 = false ->
  (exists id t, m !! id = Some t /\ P t = true) ->
  exists id t, delete id0 m !! id = Some t /\ P t = true.
Proof.
  intros H0 HP0 (id & t & Ht & HP). exists id, t. split; [|done].
  rewrite lookup_delete_ne; [done|]. congruence.
Qed.

Lemma task_ok_later now now' t : now <= now' -> task_ok now t -> task_ok now' t.
Proof. destruct t; simpl; auto. lia. Qed.

Lemma shown_error_settled r s :
  (forall x, r = Throw x -> x = newError translation_failed_message) ->
  shown_error (error s) ->
  shown_error (error (handleTranslate_settled r s)).
Proof.
  intros Hr Hs. destruct r as [v|x]; simpl; [done|].
  rewrite (Hr x eq_refl). simpl. unfold shown_error. auto 10.
Qed.

Lemma Inv_boot : Inv boot.
Proof.
  constructor; simpl; first [done | by left | apply map_Forall_empty].
Qed.

(** One turn of the loop keeps the invariant. *)
Lemma Inv_step e w w' : wf w -> Inv w -> step e w = Some w' -> Inv w'.
Proof.
  intros Hwf [Hl He Hb Hc Ht] Hs.
  destruct e; simpl in Hs.
  - (* ClickTranslate *)
    destruct (isLoading (ui w)) eqn:Hload; [done|]. simpl in Hs.
    destruct (truthy (inputText (ui w))); [|done]. simpl in Hs.
    injection Hs as <-. unfold run_handler, handleTranslate.
    destruct (truthy (trim (inputText (ui w)))) eqn:Htr; simpl.
    + constructor; simpl; [done|by left| | |].
      * intros _. by apply exists_insert_new.
      * intros H. apply exists_insert_old; auto.
      * apply map_Forall_insert_2; auto.
    + constructor; simpl; auto. by rewrite Hload.
  - (* ClickSwap *)
    injection Hs as <-. constructor; simpl; auto.
  - (* ClickCopy *)
    destruct (truthy (translatedText (ui w))) eqn:Htr; [|done].
    injection Hs as <-. unfold run_handler, handleCopy. rewrite Htr. simpl.
    constructor; simpl; auto.
    + intros H. apply exists_insert_old; auto.
    + intros H. apply exists_insert_old; auto.
    + apply map_Forall_insert_2; auto. simpl.
      by destruct (translatedText (ui w)).
  - (* ClickTab *)
    injection Hs as <-. constructor; simpl; auto.
  - (* EditText *)
    destruct (inputMode (ui w)); [|done].
    injection Hs as <-. constructor; simpl; auto.
  - (* ChooseFile *)
    destruct (inputMode (ui w)); [done|].
    injection Hs as <-. unfold run_handler, handleFileChange.
    destruct f as [f|]; [|simpl; by constructor].
    destruct (N.ltb_spec max_file_size (File.size f)) as [Hlt|Hge]; simpl.
    { constructor; simpl; auto. unfold shown_error. auto. }
    destruct (decide (File.type f = lit "application/pdf")) as [Heq|Hne].
    + rewrite bool_decide_eq_true_2 by done. simpl.
      constructor; simpl; [done|by left| | |].
      * intros _. by apply exists_insert_new.
      * intros H. apply exists_insert_old; auto.
      * apply map_Forall_insert_2; auto. by split.
    + rewrite bool_decide_eq_false_2 by done. simpl.
      constructor; simpl; auto. unfold shown_error. auto.
  - (* TranslateSettles *)
    destruct (tasks w !! id) as [[t sl tl| | |]|] eqn:Hid; try done.
    destruct (translateText ai t sl tl) as [r eff] eqn:Hr.
    injection Hs as <-. constructor; simpl.
    + by destruct r as [v|[n x|v]].
    + apply shown_error_settled; [|done].
      intros x ->. eapply translateText_throws, Hr.
    + by destruct r as [v|[n x|v]].
    + intros H. eapply exists_delete; [done|done|].
      apply Hc. by destruct r as [v|[n x|v]].
    + by apply map_Forall_delete.
  - (* ClipboardSettles *)
    destruct (tasks w !! id) as [[| t | |]|] eqn:Hid; try done.
    destruct ok; injection Hs as <-.
    + unfold run_handler, handleCopy_written. simpl.
      constructor; simpl; auto.
      * intros H. apply exists_insert_old; [by apply below_delete|].
        eapply exists_delete; eauto.
      * intros _. by apply exists_insert_new.
      * apply map_Forall_insert_2; [simpl; lia|].
        by apply map_Forall_delete.
    + constructor; simpl; auto.
      * intros H. eapply exists_delete; eauto.
      * intros H. eapply exists_delete; eauto.
      * by apply map_Forall_delete.
  - (* TimerFires *)
    destruct (tasks w !! id) as [[| | due |]|] eqn:Hid; try done.
    destruct (due <=? clock w); [|done].
    injection Hs as <-. constructor; simpl; auto.
    + intros H. eapply exists_delete; eauto.
    + done.
    + by apply map_Forall_delete.
  - (* ReaderLoads *)
    destruct (tasks w !! id) as [[| | | f]|] eqn:Hid; try done.
    destruct (reader_onload pdfjsLib result (ui w)) as [s eff] eqn:Hr.
    injection Hs as <-.
    assert (Hs : s = fst (reader_onload pdfjsLib result (ui w)))
      by (by rewrite Hr).
    assert (Hcases :
      s = setIsLoading false
            (setError (Some read_error) (ui w))
      \/ s = setIsLoading false
               (setError (Some extract_error) (ui w))
      \/ exists ft,
           s = setIsLoading false
                 (setInputMode InputMode.text
                    (setInputText (trim ft) (ui w)))).
    { unfold reader_onload in Hs.
      destruct result as [bytes|], pdfjsLib as [lib|]; auto.
      destruct (extract_fullText lib bytes) as [ft|x]; eauto. }
    clear Hr Hs.
    destruct Hcases as [-> | [-> | [ft ->]]]; constructor; simpl; auto.
    all: try done.
    all: try (unfold shown_error; auto 10; fail).
    all: try (by apply map_Forall_delete).
    all: intros H; eapply exists_delete; eauto.
  - (* ReaderFails *)
    destruct (tasks w !! id) as [[| | | f]|] eqn:Hid; try done.
    injection Hs as <-. constructor; simpl; auto.
    + unfold shown_error. auto 10.
    + done.
    + intros H. eapply exists_delete; eauto.
    + by apply map_Forall_delete.
  - (* TimePasses *)
    injection Hs as <-. constructor; simpl; auto.
    eapply map_Forall_impl; [exact Ht|].
    intros id t. apply task_ok_later. lia.
Qed.

End Invariants.

Lemma Inv_run es :
  forall w w', wf w -> Inv w -> run es w = Some w' -> Inv w' /\ wf w'.
Proof.
  induction es as [|e es IH]; intros w w' Hwf Hinv; simpl.
  - by intros [= <-].
  - destruct (step e w) as [w1|] eqn:Hs; [|done].
    apply IH; [by destruct (step_spec _ _ _ Hs Hwf)|].
    by apply (Inv_step e w).
Qed.

Lemma reachable_Inv (w : World) : reachable w -> Inv w /\ wf w.
Proof. intros [es H]. exact (Inv_run es boot w wf_boot Inv_boot H). Qed.

Lemma reachable_demo : reachable demo_w4.
Proof.
  exists (demo_es0 ++ [ClickCopy] ++ demo_es1 ++ [ClipboardSettles 1 true]
          ++ demo_es2).
  vm_compute. reflexivity.
Qed.

(** X9. Every way a translation or a file read can end, well or badly,
    turns [isLoading] off: the settled promise of [translateText], the load
    event of the reader with or without a result, and its error event. *)
Theorem loading_ends (e : Event) (w w' : World) :
  ends_loading e = true ->
  step e w = Some w' ->
  isLoading (ui w') = false.
Proof.
  intros He Hs. destruct e; try done; simpl in Hs.
  - destruct (tasks w !! id) as [[t sl tl| | |]|]; try done.
    destruct (translateText ai t sl tl) as [r eff].
    injection Hs as <-. by destruct r as [v|[n x|v]].
  - destruct (tasks w !! id) as [[| | | f]|]; try done.
    unfold reader_onload in Hs.
    destruct result as [bytes|], pdfjsLib as [lib|];
      try (by injection Hs as <-).
    destruct (extract_fullText lib bytes); by injection Hs as <-.
  - destruct (tasks w !! id) as [[| | | f]|]; try done.
    by injection Hs as <-.
Qed.

Lemma loading_ends_witness :
  isLoading
    (ui (world_after
           [EditText (lit "Hi"); ClickTranslate;
            TranslateSettles 0 failing_ai] boot)) = false.
Proof.
  exact (loading_ends (TranslateSettles 0 failing_ai)
           (world_after [EditText (lit "Hi"); ClickTranslate] boot)
           (world_after [EditText (lit "Hi"); ClickTranslate;
                         TranslateSettles 0 failing_ai] boot)
           eq_refl ltac:(vm_compute; reflexivity)).
Defined.

(** X10. Source and target language are never the same: in every world of
    a run one of them is Arabic and the other is English. *)
Theorem languages_differ (w : World) :
  reachable w ->
  (sourceLang (ui w) = arabic /\ targetLang (ui w) = english)
  \/ (sourceLang (ui w) = english /\ targetLang (ui w) = arabic).
Proof.
  intros [[H _ _ _ _] _]%reachable_Inv.
  destruct (sourceLang (ui w)), (targetLang (ui w)); auto; done.
Qed.

Lemma languages_differ_witness :
  (sourceLang (ui demo_w4) = arabic /\ targetLang (ui demo_w4) = english)
  \/ (sourceLang (ui demo_w4) = english /\ targetLang (ui demo_w4) = arabic).
Proof. exact (languages_differ demo_w4 reachable_demo). Defined.

(** X11. The error banner never shows anything but one of the six messages
    written out in the two files. No value thrown by the service or by the
    PDF library gets into [error], and the message for an unknown error of
    [handleTranslate] is never shown, since [translateText] throws nothing
    but an [Error]. *)
Theorem error_is_a_fixed_message (w : World) :
  reachable w ->
  shown_error (error (ui w))
  /\ error (ui w) <> Some (lit "An unknown error occurred.").
Proof.
  intros [[_ H _ _ _] _]%reachable_Inv. split; [done|].
  destruct H as [H|[H|[H|[H|[H|[H|H]]]]]]; rewrite H;
    vm_compute; discriminate.
Qed.

Lemma error_is_a_fixed_message_witness :
  shown_error (error (ui demo_w4))
  /\ error (ui demo_w4) <> Some (lit "An unknown error occurred.").
Proof. exact (error_is_a_fixed_message demo_w4 reachable_demo). Defined.

(** X12. Whenever [isLoading] is on, a translation or a file read is under
    way: the spinner is never left on with nothing to wait for. *)
Theorem loading_has_a_task (w : World) :
  reachable w ->
  isLoading (ui w) = true ->
  exists id t, tasks w !! id = Some t /\ is_busy t = true.
Proof. intros [[_ _ H _ _] _]%reachable_Inv. exact H. Qed.

Lemma loading_has_a_task_witness :
  exists id t,
    tasks (world_after [EditText (lit "Hi"); ClickTranslate] boot) !! id
    = Some t
    /\ is_busy t = true.
Proof.
  apply loading_has_a_task; [|reflexivity].
  exists [EditText (lit "Hi"); ClickTranslate]. reflexivity.
Defined.

(** X13. Whenever the copy feedback is on, a timer that turns it off is
    pending, and it is due at most 2000 ms from now. *)
Theorem copy_feedback_has_a_timer (w : World) :
  reachable w ->
  copySuccess (ui w) = true ->
  exists id due,
    tasks w !! id = Some (TimerPending due)
    /\ due <= clock w + copy_feedback_delay.
Proof.
  intros [[_ _ _ Hc Ht] _]%reachable_Inv H.
  destruct (Hc H) as (id & [| | due |] & Hid & Htimer); try done.
  exists id, due. split; [done|]. exact (Ht id _ Hid).
Qed.

Lemma copy_feedback_has_a_timer_witness :
  exists id due,
    tasks demo_w4 !! id = Some (TimerPending due)
    /\ due <= clock demo_w4 + copy_feedback_delay.
Proof.
  exact (copy_feedback_has_a_timer demo_w4 reachable_demo eq_refl).
Defined.




(** X15. No file is ever read that did not pass both tests: every read
    under way is of a file of at most 100 MB whose type is that of a
    PDF. *)
Theorem only_valid_files_are_read (w : World) id (f : File.t) :
  reachable w ->
  tasks w !! id = Some (ReaderPending f) ->
  valid_pdf f.
Proof.
  intros [[_ _ _ _ Ht] _]%reachable_Inv Hid. exact (Ht id _ Hid).
Qed.

Lemma only_valid_files_are_read_witness :
  valid_pdf
    {| File.name := lit "abc.pdf"; File.size := 4;
       File.type := lit "application/pdf" |}.
Proof.
  apply (only_valid_files_are_read
           (world_after
              [ClickTab InputMode.file;
               ChooseFile
                 (Some {| File.name := lit "abc.pdf"; File.size := 4;
                          File.type := lit "application/pdf" |})] boot) 0).
  - exists [ClickTab InputMode.file;
            ChooseFile
              (Some {| File.name := lit "abc.pdf"; File.size := 4;
                       File.type := lit "application/pdf" |})].
    reflexivity.
  - reflexivity.
Defined.

(** X16. The component never asks the clipboard to take an empty string:
    every clipboard write under way carries a text that is not empty. *)
Theorem clipboard_text_not_empty (w : World) id text :
  reachable w ->
  tasks w !! id = Some (ClipboardPending text) ->
  text <> [].
Proof.
  intros [[_ _ _ _ Ht] _]%reachable_Inv Hid. exact (Ht id _ Hid).
Qed.

Lemma clipboard_text_not_empty_witness : lit "Salut" <> [].
Proof.
  apply (clipboard_text_not_empty demo_w2 1).
  - exists (demo_es0 ++ [ClickCopy] ++ demo_es1). vm_compute. reflexivity.
  - vm_compute. reflexivity.
Defined.

(** ** How the operations compose *)

(** X17. Swapping and then translating translates back: in a world that is
    not loading and whose [translatedText] is not blank, a click on swap
    followed by a click on translate starts a translation of that text from
    the former target language to the former source language. The text
    that was the input goes to the result side by the swap and is cleared
    by the translate action. *)
Theorem swap_then_translate (w w1 w2 : World) :
  isLoading (ui w) = false ->
  truthy (trim (translatedText (ui w))) = true ->
  step ClickSwap w = Some w1 ->
  step ClickTranslate w1 = Some w2 ->
  tasks w2 !! next_id w
  = Some (TranslatePending (translatedText (ui w)) (targetLang (ui w))
            (sourceLang (ui w)))
  /\ inputText (ui w2) = translatedText (ui w)
  /\ translatedText (ui w2) = []
  /\ sourceLang (ui w2) = targetLang (ui w)
  /\ targetLang (ui w2) = sourceLang (ui w)
  /\ isLoading (ui w2) = true.
Proof.
  intros Hl Ht H1 H2. injection H1 as <-. simpl in H2.
  rewrite Hl in H2. simpl in H2.
  destruct (truthy (translatedText (ui w))); [|done]. simpl in H2.
  injection H2 as <-. unfold run_handler, handleTranslate. simpl.
  rewrite Ht. simpl. split; [apply lookup_insert_eq|done].
Qed.

Lemma swap_then_translate_witness :
  let w := world_after demo_es0 boot in
  tasks (world_after [ClickSwap; ClickTranslate] w) !! 1
  = Some (TranslatePending (lit "Salut") english arabic)
  /\ inputText (ui (world_after [ClickSwap; ClickTranslate] w)) = lit "Salut"
  /\ translatedText (ui (world_after [ClickSwap; ClickTranslate] w)) = [].
Proof.
  intros w.
  destruct (swap_then_translate w (world_after [ClickSwap] w)
              (world_after [ClickSwap; ClickTranslate] w)
              eq_refl eq_refl eq_refl ltac:(vm_compute; reflexivity))
    as (H1 & H2 & H3 & _).
  exact (conj H1 (conj H2 H3)).
Defined.

Lemma prompt_of_split text sl tl :
  prompt_of text sl tl = prompt_head sl tl ++ text ++ prompt_tail.
Proof.
  unfold prompt_of, prompt_head, prompt_tail.
  repeat rewrite <- app_assoc. reflexivity.
Qed.

(** X18. The prompt carries the text as it is, not trimmed and not escaped,
    between two parts that depend on the languages only; hence two calls
    send the same request only if they are for the same text and the same
    two languages. *)
Theorem request_of_injective text1 sl1 tl1 text2 sl2 tl2 :
  request_of text1 sl1 tl1 = request_of text2 sl2 tl2 ->
  text1 = text2 /\ sl1 = sl2 /\ tl1 = tl2.
Proof.
  intros H. apply (f_equal contents) in H.
  change (prompt_of text1 sl1 tl1 = prompt_of text2 sl2 tl2) in H.
  assert (Hl : sl1 = sl2 /\ tl1 = tl2).
  { destruct sl1, sl2, tl1, tl2; try done;
      exfalso; vm_compute in H; discriminate. }
  destruct Hl as [-> ->]. split; [|done].
  rewrite !prompt_of_split in H.
  apply app_inv_head, app_inv_tail in H. exact H.
Qed.

Lemma request_of_injective_witness :
  lit " Hi" = lit " Hi" /\ arabic = arabic /\ english = english.
Proof.
  exact (request_of_injective (lit " Hi") arabic english (lit " Hi") arabic
           english eq_refl).
Defined.

(** X19. A translation that settles is not checked against the input of
    that moment: whatever [inputText] has become since the click, the
    answer for the text sent at the click is shown as [translatedText],
    [isLoading] goes off, and [inputText] and [error] stay as they are. *)
Theorem stale_translation_is_shown (w : World) id ai text sl tl raw :
  tasks w !! id = Some (TranslatePending text sl tl) ->
  truthy (trim text) = true ->
  generateContent ai (request_of text sl tl)
  = Normal {| GeminiService.text := Some raw |} ->
  exists w',
    step (TranslateSettles id ai) w = Some w'
    /\ translatedText (ui w') = trim raw
    /\ isLoading (ui w') = false
    /\ inputText (ui w') = inputText (ui w)
    /\ error (ui w') = error (ui w).
Proof.
  intros Hid Ht Hg. simpl. rewrite Hid.
  rewrite (translateText_answer _ _ _ _ _ Ht Hg).
  eexists. split; [reflexivity|]. done.
Qed.

Lemma stale_translation_is_shown_witness :
  let w :=
    world_after [EditText (lit "Hi"); ClickTranslate; EditText (lit "Bye")]
      boot in
  exists w',
    step (TranslateSettles 0 salut_ai) w = Some w'
    /\ translatedText (ui w') = lit "Salut"
    /\ isLoading (ui w') = false
    /\ inputText (ui w') = lit "Bye"
    /\ error (ui w') = None.
Proof.
  intros w.
  exact (stale_translation_is_shown w 0 salut_ai (lit "Hi") arabic english
           (lit "Salut") eq_refl eq_refl eq_refl).
Defined.
